(** * The repository-scan-and-analyze pipeline of [gemini_integration.py]

    A shallow embedding of [AutomatedLeetCodeSystem]: the reference parser,
    the crawl, the classifier, the batch annotation, the upsert and the
    orchestrator, followed by the properties the specification states about
    them.

    Conventions.
    - A Python [str] is a [string]; a character stands for the code point of
      the same number, so the embedding covers text over code points below
      256.  On that range [Py.isdigit], [Py.isspace] and [Py.lower] are
      Python's [\d], [str.isspace] and [str.lower].
    - Values that come back from [json.loads] are [json] trees; a Python
      [dict] with string keys is a [gmap string json].
    - A float is kept as the literal it was decoded from.  The one place
      that compares values, the set of languages of the summary, compares
      floats by literal: the embedding covers the summaries in which no
      language is a float written in two ways or equal to an integer.
    - A Python [set] is the list of its elements, each once, in the order
      they were added; Python fixes no order, and the theorems speak of
      membership only.
    - Everything the program reaches over the network is a parameter of the
      function that uses it: the code host's listings and downloads, the
      text-generation endpoint, the JSON decoder and the database. *)

From Stdlib Require Import String Ascii List ZArith Lia Bool DecimalString.
From stdpp Require Import base gmap strings list.

Set Warnings "-register-all".

(** ** Python's string methods *)

Module Py.

(** [ord(c)] *)
Definition ord (c : ascii) : nat := nat_of_ascii c.

Definition between (lo hi n : nat) : bool := (lo <=? n) && (n <=? hi).

(** [\d] *)
Definition isdigit (c : ascii) : bool := between 48 57 (ord c).

(** [str.isspace] on one character *)
Definition isspace (c : ascii) : bool :=
  between 9 13 (ord c) || between 28 32 (ord c)
  || (ord c =? 133) || (ord c =? 160).

Definition lower_char (c : ascii) : ascii :=
  if between 65 90 (ord c)
     || (between 192 222 (ord c) && negb (ord c =? 215))
  then ascii_of_nat (ord c + 32)
  else c.

(** [s.lower()] *)
Fixpoint lower (s : string) : string :=
  match s with
  | EmptyString => EmptyString
  | String c s' => String (lower_char c) (lower s')
  end.

(** [s.startswith(p)] *)
Fixpoint startswith (s p : string) : bool :=
  match p, s with
  | EmptyString, _ => true
  | String _ _, EmptyString => false
  | String a p', String b s' => Ascii.eqb a b && startswith s' p'
  end.

(** [s[n:]] and [s[:n]] for [n >= 0] *)
Fixpoint drop (n : nat) (s : string) {struct s} : string :=
  match s, n with
  | String _ s', S n' => drop n' s'
  | _, _ => s
  end.

Fixpoint take (n : nat) (s : string) {struct s} : string :=
  match s, n with
  | String c s', S n' => String c (take n' s')
  | _, _ => EmptyString
  end.

(** [s.endswith(suf)] *)
Definition endswith (s suf : string) : bool :=
  (String.length suf <=? String.length s)
  && String.eqb (drop (String.length s - String.length suf) s) suf.

(** [sub in s] *)
Fixpoint contains (sub s : string) : bool :=
  startswith s sub
  || match s with
     | EmptyString => false
     | String _ s' => contains sub s'
     end.

(** [s.find(sub)]: the lowest index, [-1] when there is none *)
Fixpoint find_from (i : nat) (s sub : string) : option nat :=
  if startswith s sub then Some i
  else match s with
       | EmptyString => None
       | String _ s' => find_from (S i) s' sub
       end.

Definition find (s sub : string) : Z :=
  match find_from 0 s sub with
  | Some i => Z.of_nat i
  | None => (-1)%Z
  end.

(** [s.rfind(sub)]: the highest index, [-1] when there is none *)
Fixpoint rfind_from (i : nat) (s sub : string) : option nat :=
  match s with
  | EmptyString => if startswith s sub then Some i else None
  | String _ s' =>
      match rfind_from (S i) s' sub with
      | Some j => Some j
      | None => if startswith s sub then Some i else None
      end
  end.

Definition rfind (s sub : string) : Z :=
  match rfind_from 0 s sub with
  | Some i => Z.of_nat i
  | None => (-1)%Z
  end.

(** An index of a slice, clamped the way Python clamps it. *)
Definition clamp (len : nat) (i : Z) : nat :=
  if (i <? 0)%Z then Z.to_nat (Z.max 0 (i + Z.of_nat len))
  else Nat.min (Z.to_nat i) len.

(** [s[a:b]] *)
Definition slice (s : string) (a b : Z) : string :=
  let a' := clamp (String.length s) a in
  let b' := clamp (String.length s) b in
  take (b' - a') (drop a' s).

(** [s.replace(old, new)] for a non-empty [old]: occurrences are taken
    left to right and do not overlap; [skip] counts the characters of the
    occurrence just replaced that are still to be passed over. *)
Fixpoint replace_go (old new : string) (skip : nat) (s : string) : string :=
  match s with
  | EmptyString => EmptyString
  | String c s' =>
      match skip with
      | S k => replace_go old new k s'
      | O =>
          if startswith s old
          then new +:+ replace_go old new (String.length old - 1) s'
          else String c (replace_go old new 0 s')
      end
  end.

(** With an empty [old], Python puts [new] before every character and at
    the end. *)
Fixpoint intersperse (new s : string) : string :=
  match s with
  | EmptyString => new
  | String c s' => new +:+ String c (intersperse new s')
  end.

Definition replace (s old new : string) : string :=
  match old with
  | EmptyString => intersperse new s
  | String _ _ => replace_go old new 0 s
  end.

(** [s.lstrip()], [s.rstrip()], [s.strip()] and [s.rstrip(chars)] *)
Fixpoint lstrip_by (p : ascii -> bool) (s : string) : string :=
  match s with
  | EmptyString => EmptyString
  | String c s' => if p c then lstrip_by p s' else s
  end.

Fixpoint rstrip_by (p : ascii -> bool) (s : string) : string :=
  match s with
  | EmptyString => EmptyString
  | String c s' =>
      match rstrip_by p s' with
      | EmptyString => if p c then EmptyString else String c EmptyString
      | r => String c r
      end
  end.

Definition strip (s : string) : string := rstrip_by isspace (lstrip_by isspace s).

Definition rstrip_char (s : string) (c : ascii) : string :=
  rstrip_by (Ascii.eqb c) s.

(** [str(n)] for a natural number *)
Definition str_of_nat (n : nat) : string := NilEmpty.string_of_uint (Nat.to_uint n).

(** The longest prefix whose characters satisfy [p], and the rest: what a
    greedy character class [[...]*] consumes when the pattern continues with
    something the class excludes. *)
Fixpoint span (p : ascii -> bool) (s : string) : string * string :=
  match s with
  | EmptyString => (EmptyString, EmptyString)
  | String c s' =>
      if p c then let '(a, b) := span p s' in (String c a, b)
      else (EmptyString, s)
  end.

(** [re.search]: the match at the leftmost position that has one. *)
Fixpoint search {A} (match_here : string -> option A) (s : string) : option A :=
  match match_here s with
  | Some m => Some m
  | None =>
      match s with
      | EmptyString => None
      | String _ s' => search match_here s'
      end
  end.

Definition nonempty (s : string) : bool := negb (String.eqb s "").

(** A value returned or an exception raised. *)
Inductive result (A : Type) : Type :=
| Returned (a : A)
| Raised (exception : string).
Arguments Returned {A} a.
Arguments Raised {A} exception.

End Py.

(** ** SourceLocator: [parse_github_url] *)

Module Locator.
Import Py.

Definition notslash (c : ascii) : bool := negb (Ascii.eqb c "/").
Definition notnewline (c : ascii) : bool := negb (Ascii.eqb c "010").

(** [github\.com/([^/]+)/([^/]+)/tree/[^/]+/(.+)] matched at the head of
    [s]; the groups are owner, repository and sub-path. *)
Definition tree_pattern (s : string) : option (string * string * string) :=
  if startswith s "github.com/" then
    let '(owner, r1) := span notslash (drop 11 s) in
    let '(repo, r2) := span notslash (drop 1 r1) in
    let '(branch, r3) := span notslash (drop 6 r2) in
    let '(sub, _) := span notnewline (drop 1 r3) in
    if nonempty owner && startswith r1 "/" && nonempty repo
       && startswith r2 "/tree/" && nonempty branch
       && startswith r3 "/" && nonempty sub
    then Some (owner, repo, sub)
    else None
  else None.

(** [github\.com/([^/]+)/([^/]+)] matched at the head of [s]. *)
Definition pattern (s : string) : option (string * string) :=
  if startswith s "github.com/" then
    let '(owner, r1) := span notslash (drop 11 s) in
    let '(repo, _) := span notslash (drop 1 r1) in
    if nonempty owner && startswith r1 "/" && nonempty repo
    then Some (owner, repo)
    else None
  else None.

Definition parse_github_url (url : string) : result (string * string * string) :=
  let url := rstrip_char url "/" in
  match search tree_pattern url with
  | Some (owner, repo, sub) => Returned (owner, replace repo ".git" "", sub)
  | None =>
      match search pattern url with
      | Some (owner, repo) => Returned (owner, replace repo ".git" "", "")
      | None => Raised "Invalid GitHub URL format"
      end
  end.

End Locator.

(** ** Classifier: [is_code_file], [get_language], [extract_problem_number] *)

Module Classifier.
Import Py.

Definition ext_map : list (string * string) :=
  [ (".py", "Python"); (".java", "Java"); (".cpp", "C++"); (".c", "C");
    (".js", "JavaScript"); (".ts", "TypeScript"); (".go", "Go");
    (".rs", "Rust"); (".rb", "Ruby"); (".php", "PHP"); (".swift", "Swift");
    (".kt", "Kotlin"); (".cs", "C#") ].

Definition extensions : list string :=
  [ ".py"; ".java"; ".cpp"; ".c"; ".js"; ".ts"; ".go"; ".rs"; ".rb"; ".php";
    ".swift"; ".kt"; ".cs" ].

Definition is_code_file (filename : string) : bool :=
  existsb (endswith filename) extensions.

Fixpoint first_language (filename : string) (m : list (string * string)) : string :=
  match m with
  | [] => "Unknown"
  | (ext, lang) :: m' =>
      if endswith filename ext then lang else first_language filename m'
  end.

Definition get_language (filename : string) : string :=
  first_language filename ext_map.

(** Up to [k] leading digits of [s]. *)
Fixpoint take_digits (k : nat) (s : string) {struct s} : string :=
  match s, k with
  | String c s', S k' => if isdigit c then String c (take_digits k' s') else EmptyString
  | _, _ => EmptyString
  end.

(** [(\d{1,4})] at the head of [s]: greedy, so as many digits as there
    are, up to four. *)
Definition digits_1_4 (s : string) : option string :=
  match take_digits 4 s with
  | EmptyString => None
  | d => Some d
  end.

(** [(\d{4})] at the head of [s]. *)
Definition digits_4 (s : string) : option string :=
  let d := take_digits 4 s in
  if String.length d =? 4 then Some d else None.

Definition is_sep (c : ascii) : bool := Ascii.eqb c "_" || Ascii.eqb c "-".

(** [problem[_-]?(\d{4})] at the head of [s]: the optional separator is
    tried first and given up when the digits do not follow. *)
Definition problem_pattern (s : string) : option string :=
  if startswith s "problem" then
    let r := drop 7 s in
    let with_sep :=
      match r with
      | String c r' => if is_sep c then digits_4 r' else None
      | EmptyString => None
      end in
    match with_sep with
    | Some d => Some d
    | None => digits_4 r
    end
  else None.

Definition extract_problem_number (filename path : string) : string :=
  match search digits_1_4 filename with
  | Some d => d
  | None =>
      match search problem_pattern path with
      | Some d => d
      | None => "Unknown"
      end
  end.

End Classifier.

(** ** TreeCrawler: [get_file_content], [scan_repository] *)

Module Crawler.
Import Py Classifier.

(** One entry of a directory listing, with the keys the crawl reads.
    [listing] is what [get_repo_contents] answers for the entry's [path]
    (the empty list on a 404, a 403, any other status or a network error);
    the crawl reads it for a ["dir"] entry only. *)
Inductive item : Type :=
| Item (type name path download_url : string) (listing : list item).

(** What [requests.get] gives: a response, or an exception. *)
Inductive response : Type :=
| Response (status_code : nat) (text : string)
| RequestException.

(** The dict the crawl appends for a matched file. *)
Record SourceFile : Type := {
  filename : string;
  path : string;
  code : string;
  language : string;
  problem_number : string
}.

(** ['test' in path.lower() or 'helper' in path.lower()] *)
Definition excluded (path : string) : bool :=
  contains "test" (lower path) || contains "helper" (lower path).

Section Host.
(** [requests.get(download_url, timeout=10)] *)
Variable http_get : string -> response.

Definition get_file_content (download_url : string) : string :=
  match http_get download_url with
  | Response status_code text => if status_code =? 200 then text else ""
  | RequestException => ""
  end.

Fixpoint scan_item (it : item) : list SourceFile :=
  match it with
  | Item type name path download_url listing =>
      if String.eqb type "file" && is_code_file name then
        if excluded path then []
        else
          let code := get_file_content download_url in
          if nonempty code then
            [ {| filename := name;
                 path := path;
                 code := code;
                 language := get_language name;
                 problem_number := extract_problem_number name path |} ]
          else []
      else if String.eqb type "dir" then flat_map scan_item listing
      else []
  end.

(** [scan_repository(owner, repo, path)], given the listing of [path]. *)
Definition scan_repository (contents : list item) : list SourceFile :=
  flat_map scan_item contents.

End Host.

Definition item_path (it : item) : string :=
  match it with Item _ _ path _ _ => path end.

Definition item_url (it : item) : string :=
  match it with Item _ _ _ download_url _ => download_url end.

End Crawler.

(** ** BatchAnnotator: [create_gemini_prompt], [parse_gemini_response],
       [analyze_with_gemini] *)

Module Annotator.
Import Py Crawler.

(** A value [json.loads] can return. *)
Inductive json : Type :=
| JNull
| JBool (b : bool)
| JInt (z : Z)
| JFloat (literal : string)
| JStr (s : string)
| JArr (items : list json)
| JObj (fields : gmap string json).

(** [call_gemini_api] returns the generated text or raises. *)
Inductive api_result : Type :=
| Generated (text : string)
| ApiError.

(** What the annotation does besides computing: a generation call and a
    [time.sleep]. *)
Inductive event : Type :=
| Call (prompt : string)
| Sleep (seconds : nat).

(** A computation that reaches outside: it returns, or makes a generation
    call and goes on with what becomes of it, or sleeps and goes on. *)
Inductive prog (A : Type) : Type :=
| Ret (a : A)
| CallApi (prompt : string) (k : api_result -> prog A)
| SleepFor (seconds : nat) (k : prog A).
Arguments Ret {A} a.
Arguments CallApi {A} prompt k.
Arguments SleepFor {A} seconds k.

Definition nl : string := String "010" EmptyString.
Definition dq : string := String "034" EmptyString.
Definition quoted (s : string) : string := dq +:+ s +:+ dq.

Definition field_line (key value : string) : string :=
  "  " +:+ quoted key +:+ ": " +:+ value.

Definition prompt_header : string :=
  String.concat nl
    [ "Analyze these LeetCode solutions and return ONLY a valid JSON array with no markdown formatting.";
      "";
      "For each solution, provide this structure:";
      "{";
      field_line "problem_number" (quoted "extract the number" +:+ ",");
      field_line "problem_title" (quoted "proper LeetCode problem title" +:+ ",");
      field_line "difficulty" (quoted "Easy/Medium/Hard" +:+ ",");
      field_line "time_complexity" (quoted "O(n) format" +:+ ",");
      field_line "space_complexity" (quoted "O(n) format" +:+ ",");
      field_line "algorithms" ("[" +:+ quoted "algorithm1" +:+ ", " +:+ quoted "algorithm2" +:+ "],");
      field_line "data_structures" ("[" +:+ quoted "structure1" +:+ "],");
      field_line "explanation" (quoted "brief explanation under 150 chars" +:+ ",");
      field_line "tags" ("[" +:+ quoted "tag1" +:+ ", " +:+ quoted "tag2" +:+ "]");
      "}";
      "";
      "Return format: [{" +:+ quoted "problem_number" +:+ ":" +:+ quoted "1" +:+ ",...},{"
        +:+ quoted "problem_number" +:+ ":" +:+ quoted "2" +:+ ",...}]";
      "No backticks, no markdown, just pure JSON array.";
      "";
      "Solutions to analyze:";
      "" ].

(** [enumerate(l, start)] *)
Definition enumerate {A} (start : nat) (l : list A) : list (nat * A) :=
  combine (seq start (length l)) l.

(** The four [prompt += ...] of one round of the loop. *)
Definition add_solution (prompt : string) (ip : nat * SourceFile) : string :=
  let '(i, p) := ip in
  let prompt := prompt +:+ (nl +:+ "--- Solution " +:+ str_of_nat i +:+ " ---" +:+ nl) in
  let prompt := prompt +:+ ("File: " +:+ filename p +:+ nl) in
  let prompt := prompt +:+ ("Language: " +:+ language p +:+ nl) in
  prompt +:+ ("Code:" +:+ nl +:+ slice (code p) 0 1200 +:+ nl).

Definition create_gemini_prompt (problems : list SourceFile) : string :=
  fold_left add_solution (enumerate 1 problems) prompt_header.

(** [analysis['code'] = ...; analysis['path'] = ...] and the language
    backfill, on a decoded object. *)
Definition merge_fields (analysis : gmap string json) (p : SourceFile) : gmap string json :=
  let analysis := <["code" := JStr (code p)]> analysis in
  let analysis := <["path" := JStr (path p)]> analysis in
  match analysis !! "language" with
  | None => <["language" := JStr (language p)]> analysis
  | Some _ => analysis
  end.

(** The [for i, analysis in enumerate(analyzed)] loop.  An entry at an index
    below [len(original_problems)] is assigned into, which raises
    [TypeError] unless it is a dict; later entries are left as they are.
    [None] is the exception. *)
Fixpoint merge_originals (analyzed : list json) (original_problems : list SourceFile)
  : option (list json) :=
  match analyzed, original_problems with
  | [], _ => Some []
  | _ :: _, [] => Some analyzed
  | JObj analysis :: analyzed', p :: originals' =>
      match merge_originals analyzed' originals' with
      | Some rest => Some (JObj (merge_fields analysis p) :: rest)
      | None => None
      end
  | _ :: _, _ :: _ => None
  end.

Section Annotate.
(** [json.loads]: [None] when it raises. *)
Variable json_loads : string -> option json.
(** The endpoint: the answer to the [n]-th call of a run, given its prompt. *)
Variable call_gemini_api : nat -> string -> api_result.

(** The text handed to [json.loads], when both brackets are found. *)
Definition json_str (response : string) : option string :=
  let response := strip (replace (replace response "```json" "") "```" "") in
  let start := find response "[" in
  let end_ := (rfind response "]" + 1)%Z in
  if (start =? -1)%Z || (end_ =? 0)%Z then None
  else Some (slice response start end_).

(** A text that opens with a bracket decodes to a list when it decodes at
    all; were the decoder to return anything else, the loop would raise on
    it or the caller would find it empty, and the caller sees [[]] either
    way. *)
Definition parse_gemini_response (response : string) (original_problems : list SourceFile)
  : list json :=
  match json_str response with
  | None => []
  | Some text =>
      match json_loads text with
      | Some (JArr analyzed) =>
          match merge_originals analyzed original_problems with
          | Some merged => merged
          | None => []
          end
      | Some _ => []
      | None => []
      end
  end.

Definition default_record (title explanation : string) (p : SourceFile) : json :=
  JObj (list_to_map
    [ ("problem_number", JStr (problem_number p));
      ("problem_title", JStr title);
      ("difficulty", JStr "Unknown");
      ("language", JStr (language p));
      ("time_complexity", JStr "Unknown");
      ("space_complexity", JStr "Unknown");
      ("algorithms", JArr []);
      ("data_structures", JArr []);
      ("explanation", JStr explanation);
      ("tags", JArr []);
      ("code", JStr (code p));
      ("path", JStr (path p)) ]).

(** The record appended when the reply could not be used. *)
Definition pending_record (p : SourceFile) : json :=
  default_record
    (strip (replace (replace (filename p) (lower (language p)) "") "." " "))
    "Analysis pending" p.

(** The record appended when the call raised. *)
Definition failed_record (p : SourceFile) : json :=
  default_record (filename p) "Analysis failed" p.

(** [problems[i:i + batch_size]] *)
Definition batch_size : nat := 3.

Definition batch_at (problems : list SourceFile) (i : nat) : list SourceFile :=
  firstn batch_size (skipn i problems).

(** [range(0, n, step)] *)
Definition range_step (n step : nat) : list nat :=
  map (fun k => k * step) (seq 0 ((n + step - 1) / step)).

(** The records one round of the loop appends, given what became of its
    call: the [try] body after the call returned, or the [except] branch. *)
Definition batch_records (reply : api_result) (batch : list SourceFile) : list json :=
  match reply with
  | Generated response =>
      match parse_gemini_response response batch with
      | [] => map pending_record batch
      | analyzed => analyzed
      end
  | ApiError => map failed_record batch
  end.

(** The loop, from the round of index [i] on: each round makes its call,
    waits for what becomes of it, appends the records and sleeps when another
    round follows. *)
Fixpoint analyze_loop (problems : list SourceFile) (starts : list nat)
    (all_analyzed : list json) : prog (list json) :=
  match starts with
  | [] => Ret all_analyzed
  | i :: starts' =>
      let batch := batch_at problems i in
      CallApi (create_gemini_prompt batch) (fun reply =>
        let all_analyzed := all_analyzed ++ batch_records reply batch in
        if i + batch_size <? length problems
        then SleepFor 2 (analyze_loop problems starts' all_analyzed)
        else analyze_loop problems starts' all_analyzed)
  end.

(** [for i in range(0, len(problems), batch_size)] *)
Definition analyze_program (problems : list SourceFile) : prog (list json) :=
  analyze_loop problems (range_step (length problems) batch_size) [].

(** A run of a program against the endpoint: the call made after [n]
    earlier ones is answered by [call_gemini_api n]; the result, and the calls
    and sleeps the program made, in order. *)
Fixpoint run {A} (n : nat) (p : prog A) : A * list event :=
  match p with
  | Ret a => (a, [])
  | CallApi prompt k =>
      let r := run (S n) (k (call_gemini_api n prompt)) in
      (fst r, Call prompt :: snd r)
  | SleepFor seconds p' =>
      let r := run n p' in
      (fst r, Sleep seconds :: snd r)
  end.

(** The records of the round of index [i], whose call comes after
    [i / batch_size] earlier ones. *)
Definition annotate_batch (i : nat) (batch : list SourceFile) : list json :=
  batch_records (call_gemini_api (i / batch_size) (create_gemini_prompt batch)) batch.

(** [analyze_with_gemini]: the list returned and the calls and sleeps made,
    in order. *)
Definition analyze_with_gemini (problems : list SourceFile) : list json * list event :=
  run 0 (analyze_program problems).

End Annotate.

End Annotator.

(** ** Upserter: [store_in_database] *)

Module Upserter.
Import Py Annotator.

(** The tuple of Python values bound to the thirteen placeholders. *)
Record params : Type := {
  arg_problem_number : json;
  arg_problem_title : json;
  arg_difficulty : json;
  arg_language : json;
  arg_time_complexity : json;
  arg_space_complexity : json;
  arg_algorithms : json;
  arg_data_structures : json;
  arg_explanation : json;
  arg_tags : json;
  arg_code : json;
  arg_file_path : json;
  arg_user_email : json
}.

(** [sol.get(key, default)] on a dict *)
Definition dict_get (sol : gmap string json) (key : string) (default : json) : json :=
  match sol !! key with
  | Some v => v
  | None => default
  end.

Definition py_str (s : option string) : json :=
  match s with
  | Some s => JStr s
  | None => JNull
  end.

(** Building the tuple; [sol.get] raises [AttributeError] on a value that
    is not a dict ([None] here). *)
Definition statement_params (sol : json) (user_email : option string) : option params :=
  match sol with
  | JObj d =>
      Some {| arg_problem_number := dict_get d "problem_number" (JStr "Unknown");
              arg_problem_title := dict_get d "problem_title" (JStr "Unknown");
              arg_difficulty := dict_get d "difficulty" (JStr "Unknown");
              arg_language := dict_get d "language" (JStr "Unknown");
              arg_time_complexity := dict_get d "time_complexity" (JStr "Unknown");
              arg_space_complexity := dict_get d "space_complexity" (JStr "Unknown");
              arg_algorithms := dict_get d "algorithms" (JArr []);
              arg_data_structures := dict_get d "data_structures" (JArr []);
              arg_explanation := dict_get d "explanation" (JStr "");
              arg_tags := dict_get d "tags" (JArr []);
              arg_code := dict_get d "code" (JStr "");
              arg_file_path := dict_get d "path" (JStr "");
              arg_user_email := py_str user_email |}
  | _ => None
  end.

(** The thirteen columns of [leetcode_solutions] the statement writes, typed
    as [setup_database] declares them: text or an array of text, [None] for
    NULL. *)
Record solution : Type := {
  problem_number : option string;
  problem_title : option string;
  difficulty : option string;
  language : option string;
  time_complexity : option string;
  space_complexity : option string;
  algorithms : option (list (option string));
  data_structures : option (list (option string));
  explanation : option string;
  tags : option (list (option string));
  code : option string;
  file_path : option string;
  user_email : option string
}.

(** A stored row: the columns above and [created_at], which the statement
    never names and the table fills with [CURRENT_TIMESTAMP] on insert.  The
    surrogate [id] is left out: neither the statement nor the conflict target
    reads it, and a row is identified by its place in the table. *)
Record row : Type := {
  columns : solution;
  created_at : nat
}.

(** What becomes of a parameter tuple: the column values the row would
    hold, an error raised by the driver before anything is sent (a value it
    cannot adapt), or an error raised by the server (a value the column
    refuses). *)
Inductive bound : Type :=
| Bound (v : solution)
| DriverError
| ServerError.

(** Equality of two key columns as a unique index sees it: NULL equals
    nothing. *)
Definition col_eq (a b : option string) : bool :=
  match a, b with
  | Some x, Some y => String.eqb x y
  | _, _ => false
  end.

(** [ON CONFLICT (problem_number, language, file_path, user_email)] *)
Definition conflicts (a b : solution) : bool :=
  col_eq (problem_number a) (problem_number b)
  && col_eq (language a) (language b)
  && col_eq (file_path a) (file_path b)
  && col_eq (user_email a) (user_email b).

(** [DO UPDATE SET ... = EXCLUDED. ...] on the row in conflict *)
Definition do_update (old : row) (excluded : solution) : row :=
  {| columns :=
       {| problem_number := problem_number (columns old);
          problem_title := problem_title excluded;
          difficulty := difficulty excluded;
          language := language (columns old);
          time_complexity := time_complexity excluded;
          space_complexity := space_complexity excluded;
          algorithms := algorithms excluded;
          data_structures := data_structures excluded;
          explanation := explanation excluded;
          tags := tags excluded;
          code := code excluded;
          file_path := file_path (columns old);
          user_email := user_email (columns old) |};
     created_at := created_at old |}.

(** The statement on a table: the new table and [RETURNING (xmax = 0)],
    true for a row inserted and false for a row updated. *)
Fixpoint upsert (v : solution) (now : nat) (table : list row) : list row * bool :=
  match table with
  | [] => ([ {| columns := v; created_at := now |} ], true)
  | r :: table' =>
      if conflicts (columns r) v then (do_update r v :: table', false)
      else let '(t, was_inserted) := upsert v now table' in (r :: t, was_inserted)
  end.

(** The state of the loop: the table as the open transaction sees it, the
    two counters, and whether a statement has failed on the server, after
    which the server refuses every statement until the transaction ends. *)
Record txn : Type := {
  rows : list row;
  inserted : nat;
  updated : nat;
  aborted : bool
}.

(** A connection: whether [psycopg2.connect] and [conn.commit] succeed. *)
Record session : Type := {
  connects : bool;
  commits : bool
}.

Inductive outcome : Type :=
| Stored (inserted updated : nat)
| DatabaseError.

Section Store.
Variable bind : params -> bound.

(** One round of [for sol in solutions], with its [try]/[except]. *)
Definition store_one (user_email : option string) (now : nat) (st : txn) (sol : json) : txn :=
  match statement_params sol user_email with
  | None => st
  | Some ps =>
      if aborted st then st
      else
        match bind ps with
        | Bound v =>
            let '(t, was_inserted) := upsert v now (rows st) in
            if was_inserted
            then {| rows := t; inserted := S (inserted st); updated := updated st; aborted := false |}
            else {| rows := t; inserted := inserted st; updated := S (updated st); aborted := false |}
        | DriverError => st
        | ServerError =>
            {| rows := rows st; inserted := inserted st; updated := updated st; aborted := true |}
        end
  end.

(** [store_in_database]: the counts printed, or the exception re-raised by
    the outer handler, and the table afterwards.  [now] is the time of the
    transaction; a commit of an aborted transaction rolls it back. *)
Definition store_in_database (db : session) (now : nat) (solutions : list json)
    (user_email : option string) (table : list row) : outcome * list row :=
  if connects db then
    let st := fold_left (store_one user_email now) solutions
                {| rows := table; inserted := 0; updated := 0; aborted := false |} in
    if commits db
    then (Stored (inserted st) (updated st), if aborted st then table else rows st)
    else (DatabaseError, table)
  else (DatabaseError, table).

End Store.

End Upserter.

(** ** PipelineOrchestrator: [process_repository] *)

Module Orchestrator.
Import Py.

(** Everything outside the process that one run meets. *)
Record world : Type := {
  internet : bool;
  github_api : bool;
  get_repo_contents : string -> string -> string -> list Crawler.item;
  http_get : string -> Crawler.response;
  json_loads : string -> option Annotator.json;
  call_gemini_api : nat -> string -> Annotator.api_result;
  setup_session : Upserter.session;
  store_session : Upserter.session;
  bind : Upserter.params -> Upserter.bound;
  now : nat
}.

(** How a run ends: one of the early [return]s, the exception the summary
    lets through, or the summary. *)
Inductive run : Type :=
| ConnectionTestFailed
| GithubExtractionError (message : string)
| NoSolutionsFound
| DatabaseSetupError
| DatabaseStorageError
| SummaryRaised
| ProcessComplete (total : nat) (languages : list Annotator.json).

(** [test_connection] returns, rather than raises. *)
Definition test_connection (w : world) : bool := internet w && github_api w.

(** [setup_database] returns, rather than raises; its statements are
    [CREATE TABLE IF NOT EXISTS] and leave a table that exists as it is. *)
Definition setup_database (w : world) : bool :=
  Upserter.connects (setup_session w) && Upserter.commits (setup_session w).

(** A value that can be put in a [set]. *)
Definition hashable (v : Annotator.json) : bool :=
  match v with
  | Annotator.JArr _ | Annotator.JObj _ => false
  | _ => true
  end.

(** [a == b] for two values that can be put in a set: [None] equals
    itself only, strings are compared by content, and [True] and [False]
    equal [1] and [0].  A float is compared by its literal. *)
Definition same_element (a b : Annotator.json) : bool :=
  match a, b with
  | Annotator.JNull, Annotator.JNull => true
  | Annotator.JBool x, Annotator.JBool y => Bool.eqb x y
  | Annotator.JInt x, Annotator.JInt y => Z.eqb x y
  | Annotator.JBool x, Annotator.JInt y => Z.eqb y (if x then 1 else 0)
  | Annotator.JInt x, Annotator.JBool y => Z.eqb x (if y then 1 else 0)
  | Annotator.JFloat x, Annotator.JFloat y => String.eqb x y
  | Annotator.JStr x, Annotator.JStr y => String.eqb x y
  | _, _ => false
  end.

(** Adding a value to a set, whose elements are listed once each in the
    order they came in: a value equal to an element changes nothing. *)
Definition set_add (v : Annotator.json) (elements : list Annotator.json)
  : list Annotator.json :=
  if existsb (same_element v) elements then elements else elements ++ [v].

(** [set(s.get('language', 'Unknown') for s in analyzed)], from the set
    built so far; [None] when [s.get] or the hashing raises. *)
Fixpoint summary_languages_from (elements : list Annotator.json)
    (analyzed : list Annotator.json) : option (list Annotator.json) :=
  match analyzed with
  | [] => Some elements
  | Annotator.JObj d :: analyzed' =>
      let v := Upserter.dict_get d "language" (Annotator.JStr "Unknown") in
      if hashable v then summary_languages_from (set_add v elements) analyzed'
      else None
  | _ :: _ => None
  end.

Definition summary_languages (analyzed : list Annotator.json)
  : option (list Annotator.json) :=
  summary_languages_from [] analyzed.

(** [process_repository] up to the summary.  The registration and the
    welcome mail before it, and the recommendation after it, catch every
    exception of their own and touch neither the solutions table nor the way
    the run ends. *)
Definition process_repository (w : world) (github_url : string)
    (user_email : option string) (table : list Upserter.row) : run * list Upserter.row :=
  if test_connection w then
    match Locator.parse_github_url github_url with
    | Raised message => (GithubExtractionError message, table)
    | Returned (owner, repo, start_path) =>
        match Crawler.scan_repository (http_get w) (get_repo_contents w owner repo start_path) with
        | [] => (NoSolutionsFound, table)
        | problems =>
            let analyzed :=
              fst (Annotator.analyze_with_gemini (json_loads w) (call_gemini_api w) problems) in
            if setup_database w then
              match Upserter.store_in_database (bind w) (store_session w) (now w)
                      analyzed user_email table with
              | (Upserter.DatabaseError, table') => (DatabaseStorageError, table')
              | (Upserter.Stored _ _, table') =>
                  match summary_languages analyzed with
                  | Some languages => (ProcessComplete (length analyzed) languages, table')
                  | None => (SummaryRaised, table')
                  end
              end
            else (DatabaseSetupError, table)
        end
    end
  else (ConnectionTestFailed, table).

End Orchestrator.

(** ** Recommender: [parse_recommendation_response] *)

Module Recommender.
Import Py Annotator.

(** What [parse_recommendation_response] does: it returns what
    [json.loads] returns, raises [ValueError("No JSON found")], or lets the
    decoder's exception through. *)
Inductive parsed : Type :=
| Recommendation (v : json)
| NoJsonFound
| DecodeError.

(** The text handed to [json.loads], when an opening brace stands before
    the last closing one. *)
Definition json_str (response : string) : option string :=
  let response := strip (replace (replace response "```json" "") "```" "") in
  let start := find response "{" in
  let end_ := (rfind response "}" + 1)%Z in
  if negb (start =? -1)%Z && (start <? end_)%Z
  then Some (slice response start end_)
  else None.

Section Decode.
Variable json_loads : string -> option json.

Definition parse_recommendation_response (response : string) : parsed :=
  match json_str response with
  | Some text =>
      match json_loads text with
      | Some v => Recommendation v
      | None => DecodeError
      end
  | None => NoJsonFound
  end.

End Decode.

End Recommender.

(** ** The specification's wording, for comparison with the code

    These definitions follow the sentences of the specification and are
    used in the statements below only. *)

Module Stated.
Import Py.

Fixpoint all (p : ascii -> bool) (s : string) : bool :=
  match s with
  | EmptyString => true
  | String c s' => p c && all p s'
  end.

Definition digits (s : string) : bool := all isdigit s.
Definition no_digit (s : string) : bool := all (fun c => negb (isdigit c)) s.

Definition head_is_digit (s : string) : bool :=
  match s with
  | String c _ => isdigit c
  | EmptyString => false
  end.

(** [ds] is the first run of 1 to 4 digits of [filename]: nothing before
    it is a digit, and it stops at four digits or where the digits stop. *)
Definition first_digit_run (filename ds : string) : Prop :=
  exists pre rest,
    filename = pre +:+ ds +:+ rest
    /\ no_digit pre = true /\ digits ds = true
    /\ 1 <= String.length ds <= 4
    /\ (String.length ds = 4 \/ head_is_digit rest = false).

(** The pattern [problem[-_]?####] stands at offset [i] of [path], its
    four digits being [ds]. *)
Definition problem_at (path : string) (i : nat) (ds : string) : Prop :=
  exists pre sep rest,
    path = pre +:+ "problem" +:+ sep +:+ ds +:+ rest
    /\ String.length pre = i
    /\ (sep = "" \/ sep = "_" \/ sep = "-")
    /\ digits ds = true /\ String.length ds = 4.

(** Problem-id extraction as the specification words it. *)
Inductive problem_id (filename path : string) : string -> Prop :=
| id_from_filename ds :
    first_digit_run filename ds -> problem_id filename path ds
| id_from_path i ds :
    no_digit filename = true ->
    problem_at path i ds ->
    (forall j ds', j < i -> ~ problem_at path j ds') ->
    problem_id filename path ds
| id_unknown :
    no_digit filename = true ->
    (forall i ds, ~ problem_at path i ds) ->
    problem_id filename path "Unknown".

(** [sub] occurs in [s]. *)
Definition occurs_in (sub s : string) : Prop :=
  exists pre post, s = pre +:+ sub +:+ post.

(** The text one file contributes to a prompt, [i] being its number in
    the batch: its name, its language, and the first 1200 characters of its
    code at most. *)
Definition solution_text (i : nat) (p : Crawler.SourceFile) : string :=
  Annotator.nl +:+ "--- Solution " +:+ str_of_nat i +:+ " ---" +:+ Annotator.nl
  +:+ "File: " +:+ Crawler.filename p +:+ Annotator.nl
  +:+ "Language: " +:+ Crawler.language p +:+ Annotator.nl
  +:+ "Code:" +:+ Annotator.nl +:+ take 1200 (Crawler.code p) +:+ Annotator.nl.

Fixpoint solutions_text (i : nat) (batch : list Crawler.SourceFile) : string :=
  match batch with
  | [] => ""
  | p :: batch' => solution_text i p +:+ solutions_text (S i) batch'
  end.

(** One generation call per batch, and a cooldown of 2 between
    consecutive batches but not after the last. *)
Fixpoint expected_trace (prompt : list Crawler.SourceFile -> string)
    (batches : list (list Crawler.SourceFile)) : list Annotator.event :=
  match batches with
  | [] => []
  | b :: rest =>
      Annotator.Call (prompt b)
      :: match rest with
         | [] => []
         | _ :: _ => Annotator.Sleep 2 :: expected_trace prompt rest
         end
  end.

(** The reply fails to parse as a JSON array: no bracketed text is found
    in it, or the decoder raises on that text, or what it decodes is not an
    array. *)
Definition unparsable (json_loads : string -> option Annotator.json) (response : string) : bool :=
  match Annotator.json_str response with
  | None => true
  | Some text =>
      match json_loads text with
      | Some (Annotator.JArr _) => false
      | _ => true
      end
  end.

(** A record the summary can read: a dict whose language can be put in a
    set. *)
Definition summarizable (record : Annotator.json) : Prop :=
  exists d, record = Annotator.JObj d
            /\ Orchestrator.hashable
                 (Upserter.dict_get d "language" (Annotator.JStr "Unknown")) = true.

(** A record carries a file's path and code. *)
Definition carries (record : Annotator.json) (p : Crawler.SourceFile) : Prop :=
  exists d, record = Annotator.JObj d
            /\ d !! "path" = Some (Annotator.JStr (Crawler.path p))
            /\ d !! "code" = Some (Annotator.JStr (Crawler.code p)).

(** A default record: the three "Unknown" fields, the three empty lists
    and the given explanation. *)
Definition default_with (explanation : string) (record : Annotator.json) : Prop :=
  exists d, record = Annotator.JObj d
            /\ d !! "difficulty" = Some (Annotator.JStr "Unknown")
            /\ d !! "time_complexity" = Some (Annotator.JStr "Unknown")
            /\ d !! "space_complexity" = Some (Annotator.JStr "Unknown")
            /\ d !! "algorithms" = Some (Annotator.JArr [])
            /\ d !! "data_structures" = Some (Annotator.JArr [])
            /\ d !! "tags" = Some (Annotator.JArr [])
            /\ d !! "explanation" = Some (Annotator.JStr explanation).

(** The matched entries of a tree: the file entries with a recognized
    extension and a path that is not excluded, at any depth the crawl
    descends to.  They are the entries whose content the crawl asks for. *)
Fixpoint matched_entries (it : Crawler.item) : list Crawler.item :=
  match it with
  | Crawler.Item type name path download_url listing =>
      if String.eqb type "file" && Classifier.is_code_file name then
        if Crawler.excluded path then [] else [it]
      else if String.eqb type "dir" then flat_map matched_entries listing
      else []
  end.

(** A download that gives the crawl something to keep: it does not fail,
    and it does not return an empty text. *)
Definition download_usable (r : Crawler.response) : bool :=
  match r with
  | Crawler.Response status_code text => (status_code =? 200) && nonempty text
  | Crawler.RequestException => false
  end.

(** The four key columns are all set. *)
Definition key_not_null (v : Upserter.solution) : bool :=
  match Upserter.problem_number v, Upserter.language v, Upserter.file_path v, Upserter.user_email v with
  | Some _, Some _, Some _, Some _ => true
  | _, _, _, _ => false
  end.

(** A record the statement goes through with: it is a dict, and driver and
    server take its parameter tuple. *)
Definition accepted (bind : Upserter.params -> Upserter.bound) (user_email : option string)
    (sol : Annotator.json) (v : Upserter.solution) : Prop :=
  exists ps, Upserter.statement_params sol user_email = Some ps /\ bind ps = Upserter.Bound v.

(** At most one row for a key whose four columns are all set. *)
Definition unique_keys (table : list Upserter.row) : Prop :=
  forall i j ri rj,
    table !! i = Some ri -> table !! j = Some rj ->
    Upserter.conflicts (Upserter.columns ri) (Upserter.columns rj) = true -> i = j.

(** The same, told row by row: a row conflicts with none of the rows after
    it. *)
Fixpoint distinct_keys (table : list Upserter.row) : Prop :=
  match table with
  | [] => True
  | r :: table' =>
      Forall (fun r' => Upserter.conflicts (Upserter.columns r) (Upserter.columns r') = false) table'
      /\ distinct_keys table'
  end.

(** Some row of the table has the key of [v]. *)
Definition present (v : Upserter.solution) (table : list Upserter.row) : Prop :=
  Exists (fun r => Upserter.conflicts (Upserter.columns r) v = true) table.

(** How many characters of [s] satisfy [p]. *)
Fixpoint count (p : ascii -> bool) (s : string) : nat :=
  match s with
  | EmptyString => 0
  | String c s' => (if p c then 1 else 0) + count p s'
  end.

Definition is_slash (c : ascii) : bool := Ascii.eqb c "/".

(** No slash in [s]. *)
Definition slash_free (s : string) : bool := all Locator.notslash s.

(** No line feed in [s]. *)
Definition one_line (s : string) : bool := all Locator.notnewline s.

(** A decoded value is an object (a dict). *)
Definition is_object (v : Annotator.json) : bool :=
  match v with
  | Annotator.JObj _ => true
  | _ => false
  end.

(** [record] is the decoded object [d] after the merge with the file [p]:
    code and path are the file's, the language is the decoded one when there
    is one and the file's otherwise, and every other key is as decoded. *)
Definition merged_entry (d : gmap string Annotator.json) (p : Crawler.SourceFile)
    (record : Annotator.json) : Prop :=
  exists d',
    record = Annotator.JObj d'
    /\ d' !! "code" = Some (Annotator.JStr (Crawler.code p))
    /\ d' !! "path" = Some (Annotator.JStr (Crawler.path p))
    /\ d' !! "language"
       = Some (match d !! "language" with
               | Some l => l
               | None => Annotator.JStr (Crawler.language p)
               end)
    /\ forall key, key <> "code" -> key <> "path" -> key <> "language" ->
                   d' !! key = d !! key.

(** [r'] is the row [r] as far as its identity goes: the four key columns
    and the creation time. *)
Definition same_identity (r r' : Upserter.row) : Prop :=
  Upserter.problem_number (Upserter.columns r') = Upserter.problem_number (Upserter.columns r)
  /\ Upserter.language (Upserter.columns r') = Upserter.language (Upserter.columns r)
  /\ Upserter.file_path (Upserter.columns r') = Upserter.file_path (Upserter.columns r)
  /\ Upserter.user_email (Upserter.columns r') = Upserter.user_email (Upserter.columns r)
  /\ Upserter.created_at r' = Upserter.created_at r.

(** The nine columns the statement sets hold the values of [v]. *)
Definition holds_data (r : Upserter.row) (v : Upserter.solution) : Prop :=
  Upserter.problem_title (Upserter.columns r) = Upserter.problem_title v
  /\ Upserter.difficulty (Upserter.columns r) = Upserter.difficulty v
  /\ Upserter.time_complexity (Upserter.columns r) = Upserter.time_complexity v
  /\ Upserter.space_complexity (Upserter.columns r) = Upserter.space_complexity v
  /\ Upserter.algorithms (Upserter.columns r) = Upserter.algorithms v
  /\ Upserter.data_structures (Upserter.columns r) = Upserter.data_structures v
  /\ Upserter.explanation (Upserter.columns r) = Upserter.explanation v
  /\ Upserter.tags (Upserter.columns r) = Upserter.tags v
  /\ Upserter.code (Upserter.columns r) = Upserter.code v.

(** The server refuses the statement of none of the records. *)
Definition never_refused (bind : Upserter.params -> Upserter.bound)
    (user_email : option string) (solutions : list Annotator.json) : Prop :=
  Forall (fun sol => forall ps, Upserter.statement_params sol user_email = Some ps ->
                                bind ps <> Upserter.ServerError)
         solutions.

(** The run ended before the storage was committed. *)
Definition ended_early (r : Orchestrator.run) : bool :=
  match r with
  | Orchestrator.ProcessComplete _ _ | Orchestrator.SummaryRaised => false
  | _ => true
  end.

End Stated.

(** ** Concrete inputs for the examples *)

Module Samples.
Import Crawler.

Definition file_entry (name path : string) : item :=
  Item "file" name path ("https://raw.example/" +:+ path) [].

(** The repository of the specification's crawl scenario. *)
Definition scenario_tree : list item :=
  [ file_entry "1-two-sum.py" "1-two-sum.py";
    file_entry "test_utils.py" "test_utils.py";
    Item "dir" "15" "15" ""
      [ file_entry "longest-substring.go" "15/longest-substring.go" ] ].

(** A host that serves every file with the same one-line text. *)
Definition serve_all (download_url : string) : response :=
  Response 200 "pass".

(** A host whose downloads all fail. *)
Definition serve_none (download_url : string) : response :=
  RequestException.

Definition two_files : list SourceFile :=
  [ {| filename := "1-two-sum.py"; path := "1-two-sum.py"; code := "pass";
       language := "Python"; problem_number := "1" |};
    {| filename := "2-add.py"; path := "lists/2-add.py"; code := "return";
       language := "Python"; problem_number := "2" |} ].

(** [json.loads] on the texts the examples decode: an array of one empty
    object, and an array of an empty object and a number. *)
Definition json_loads (text : string) : option Annotator.json :=
  if String.eqb text "[{}]" then Some (Annotator.JArr [Annotator.JObj ∅])
  else if String.eqb text "[{}, 5]"
       then Some (Annotator.JArr [Annotator.JObj ∅; Annotator.JInt 5])
       else None.

(** An endpoint whose every call raises. *)
Definition always_raises (n : nat) (prompt : string) : Annotator.api_result :=
  Annotator.ApiError.

(** An endpoint that answers every prompt with an array of one object. *)
Definition one_object (n : nat) (prompt : string) : Annotator.api_result :=
  Annotator.Generated "[{}]".

(** An endpoint that answers every prompt with prose. *)
Definition prose (n : nat) (prompt : string) : Annotator.api_result :=
  Annotator.Generated "Sorry, I cannot help with that.".

Definition text_column (v : Annotator.json) : option (option string) :=
  match v with
  | Annotator.JStr s => Some (Some s)
  | Annotator.JNull => Some None
  | _ => None
  end.

Fixpoint text_items (items : list Annotator.json) : option (list (option string)) :=
  match items with
  | [] => Some []
  | x :: items' =>
      match text_column x, text_items items' with
      | Some c, Some cs => Some (c :: cs)
      | _, _ => None
      end
  end.

Definition array_column (v : Annotator.json) : option (option (list (option string))) :=
  match v with
  | Annotator.JArr items =>
      match text_items items with
      | Some cs => Some (Some cs)
      | None => None
      end
  | Annotator.JNull => Some None
  | _ => None
  end.

(** A database that takes a string or [None] for a text column and a list
    of them for an array column, and whose driver refuses any other value,
    as it refuses a dict. *)
Definition bind (ps : Upserter.params) : Upserter.bound :=
  match text_column (Upserter.arg_problem_number ps),
        text_column (Upserter.arg_problem_title ps),
        text_column (Upserter.arg_difficulty ps),
        text_column (Upserter.arg_language ps),
        text_column (Upserter.arg_time_complexity ps),
        text_column (Upserter.arg_space_complexity ps),
        array_column (Upserter.arg_algorithms ps),
        array_column (Upserter.arg_data_structures ps),
        text_column (Upserter.arg_explanation ps),
        array_column (Upserter.arg_tags ps),
        text_column (Upserter.arg_code ps),
        text_column (Upserter.arg_file_path ps),
        text_column (Upserter.arg_user_email ps) with
  | Some a, Some b, Some c, Some d, Some e, Some f, Some g, Some h, Some i,
    Some j, Some k, Some l, Some m =>
      Upserter.Bound
        {| Upserter.problem_number := a; Upserter.problem_title := b;
           Upserter.difficulty := c; Upserter.language := d;
           Upserter.time_complexity := e; Upserter.space_complexity := f;
           Upserter.algorithms := g; Upserter.data_structures := h;
           Upserter.explanation := i; Upserter.tags := j; Upserter.code := k;
           Upserter.file_path := l; Upserter.user_email := m |}
  | _, _, _, _, _, _, _, _, _, _, _, _, _ => Upserter.DriverError
  end.

Definition online : Upserter.session :=
  {| Upserter.connects := true; Upserter.commits := true |}.

Definition offline : Upserter.session :=
  {| Upserter.connects := false; Upserter.commits := false |}.

(** A record as the annotation leaves it, with a given explanation. *)
Definition record_of (explanation : string) : Annotator.json :=
  Annotator.JObj (list_to_map
    [ ("problem_number", Annotator.JStr "1");
      ("problem_title", Annotator.JStr "Two Sum");
      ("language", Annotator.JStr "Python");
      ("explanation", Annotator.JStr explanation);
      ("path", Annotator.JStr "a.py") ]).

(** The column values of [record_of explanation] for the owner [u1]. *)
Definition solution_of (explanation : string) : Upserter.solution :=
  {| Upserter.problem_number := Some "1";
     Upserter.problem_title := Some "Two Sum";
     Upserter.difficulty := Some "Unknown";
     Upserter.language := Some "Python";
     Upserter.time_complexity := Some "Unknown";
     Upserter.space_complexity := Some "Unknown";
     Upserter.algorithms := Some [];
     Upserter.data_structures := Some [];
     Upserter.explanation := Some explanation;
     Upserter.tags := Some [];
     Upserter.code := Some "";
     Upserter.file_path := Some "a.py";
     Upserter.user_email := Some "u1" |}.

(** The table after the record was stored once, at time 3. *)
Definition stored_once : list Upserter.row :=
  [ {| Upserter.columns := solution_of "first"; Upserter.created_at := 3 |} ].

(** An endpoint that answers every prompt with an array of an object and a
    number. *)
Definition object_and_number (n : nat) (prompt : string) : Annotator.api_result :=
  Annotator.Generated "[{}, 5]".

Definition one_file : list SourceFile :=
  [ {| filename := "1-two-sum.py"; path := "1-two-sum.py"; code := "pass";
       language := "Python"; problem_number := "1" |} ].

(** What the annotation returns for [one_file] when the reply is an
    object and a number: the merged object, and the number as it came. *)
Definition object_and_number_records : list Annotator.json :=
  fst (Annotator.analyze_with_gemini json_loads object_and_number one_file).

(** A code host that answers every listing with the scenario's tree. *)
Definition host (owner repo path : string) : list item := scenario_tree.

(** A run in which everything outside answers, the generation endpoint
    apart, which raises on every call. *)
Definition world_without_generation : Orchestrator.world :=
  {| Orchestrator.internet := true;
     Orchestrator.github_api := true;
     Orchestrator.get_repo_contents := host;
     Orchestrator.http_get := serve_all;
     Orchestrator.json_loads := json_loads;
     Orchestrator.call_gemini_api := always_raises;
     Orchestrator.setup_session := online;
     Orchestrator.store_session := online;
     Orchestrator.bind := bind;
     Orchestrator.now := 1 |}.

(** The same run, with a database that goes away after the set-up. *)
Definition world_without_storage : Orchestrator.world :=
  {| Orchestrator.internet := true;
     Orchestrator.github_api := true;
     Orchestrator.get_repo_contents := host;
     Orchestrator.http_get := serve_all;
     Orchestrator.json_loads := json_loads;
     Orchestrator.call_gemini_api := always_raises;
     Orchestrator.setup_session := online;
     Orchestrator.store_session := offline;
     Orchestrator.bind := bind;
     Orchestrator.now := 1 |}.

Definition repository_url : string := "https://github.com/octocat/leetcode".

(** A run in which every download fails. *)
Definition world_without_downloads : Orchestrator.world :=
  {| Orchestrator.internet := true;
     Orchestrator.github_api := true;
     Orchestrator.get_repo_contents := host;
     Orchestrator.http_get := serve_none;
     Orchestrator.json_loads := json_loads;
     Orchestrator.call_gemini_api := always_raises;
     Orchestrator.setup_session := online;
     Orchestrator.store_session := online;
     Orchestrator.bind := bind;
     Orchestrator.now := 1 |}.

(** The column values of [record_of explanation] for a run without an
    owner: [user_email] is NULL. *)
Definition solution_without_owner (explanation : string) : Upserter.solution :=
  {| Upserter.problem_number := Some "1";
     Upserter.problem_title := Some "Two Sum";
     Upserter.difficulty := Some "Unknown";
     Upserter.language := Some "Python";
     Upserter.time_complexity := Some "Unknown";
     Upserter.space_complexity := Some "Unknown";
     Upserter.algorithms := Some [];
     Upserter.data_structures := Some [];
     Upserter.explanation := Some explanation;
     Upserter.tags := Some [];
     Upserter.code := Some "";
     Upserter.file_path := Some "a.py";
     Upserter.user_email := None |}.

End Samples.

(** * Properties *)

(** ** Strings *)

Section StringFacts.
Import Py.
Local Arguments String.append !_ _ : simpl nomatch.

Lemma app_cons c s t : String c s +:+ t = String c (s +:+ t).
Proof. reflexivity. Qed.

Lemma app_empty_r s : s +:+ "" = s.
Proof. induction s as [|c s IH]; [reflexivity|]. rewrite ?app_cons, IH. reflexivity. Qed.

Lemma app_assoc_str s t u : (s +:+ t) +:+ u = s +:+ t +:+ u.
Proof. induction s as [|c s IH]; [reflexivity|]. rewrite ?app_cons, IH. reflexivity. Qed.

Lemma length_app_str s t : String.length (s +:+ t) = String.length s + String.length t.
Proof. induction s as [|c s IH]; [reflexivity|]. rewrite ?app_cons. simpl. rewrite IH. reflexivity. Qed.

Lemma drop_0 s : drop 0 s = s.
Proof. destruct s; reflexivity. Qed.

Lemma take_0 s : take 0 s = "".
Proof. destruct s; reflexivity. Qed.

Lemma drop_app_length pre s : drop (String.length pre) (pre +:+ s) = s.
Proof. induction pre as [|c pre IH]; [apply drop_0|]. rewrite ?app_cons. simpl. exact IH. Qed.

Lemma take_app_length pre s : take (String.length pre) (pre +:+ s) = pre.
Proof. induction pre as [|c pre IH]; [apply take_0|]. rewrite ?app_cons. simpl. rewrite IH. reflexivity. Qed.

Lemma take_drop_str i s : take i s +:+ drop i s = s.
Proof.
  revert i. induction s as [|c s IH]; intros [|i]; try reflexivity.
  simpl. rewrite ?app_cons, IH. reflexivity.
Qed.

Lemma length_take_str i s : i <= String.length s -> String.length (take i s) = i.
Proof.
  revert i. induction s as [|c s IH]; intros [|i] H; simpl in *; try lia.
  rewrite IH; lia.
Qed.

Lemma length_take_le i s : String.length (take i s) <= i.
Proof.
  revert i. induction s as [|c s IH]; intros [|i]; simpl; try lia.
  specialize (IH i). lia.
Qed.

Lemma take_min i s : take (Nat.min i (String.length s)) s = take i s.
Proof.
  revert i. induction s as [|c s IH]; intros [|i]; try reflexivity.
  simpl. rewrite IH. reflexivity.
Qed.

Lemma slice_from_0 s k : slice s 0 (Z.of_nat k) = take k s.
Proof.
  unfold slice, clamp. simpl (0 <? 0)%Z. cbv iota.
  assert ((Z.of_nat k <? 0)%Z = false) as -> by (apply Z.ltb_ge; lia).
  rewrite Nat2Z.id. simpl (Z.to_nat 0). rewrite Nat.min_0_l, Nat.sub_0_r, drop_0.
  apply take_min.
Qed.

Lemma startswith_app s p : startswith (p +:+ s) p = true.
Proof.
  induction p as [|c p IH]; [destruct s; reflexivity|].
  rewrite ?app_cons. simpl. rewrite Ascii.eqb_refl. exact IH.
Qed.

Lemma startswith_split s p :
  startswith s p = true -> s = p +:+ drop (String.length p) s.
Proof.
  revert s. induction p as [|c p IH]; intros s H; [simpl; rewrite ?drop_0; reflexivity|].
  destruct s as [|d s]; [discriminate|]. simpl in H.
  apply andb_prop in H as [Hc Hs]. apply Ascii.eqb_eq in Hc. subst d.
  rewrite ?app_cons. simpl. f_equal. apply IH, Hs.
Qed.

Lemma search_nil {A} (m : string -> option A) : search m "" = m "".
Proof. simpl. destruct (m ""); reflexivity. Qed.

Lemma search_cons {A} (m : string -> option A) c s :
  search m (String c s)
  = match m (String c s) with Some d => Some d | None => search m s end.
Proof. reflexivity. Qed.

(** [re.search] finds the leftmost offset at which the pattern matches. *)
Lemma search_Some {A} (m : string -> option A) s d :
  search m s = Some d <->
  exists i, i <= String.length s /\ m (drop i s) = Some d
            /\ forall j, j < i -> m (drop j s) = None.
Proof.
  induction s as [|c s IH].
  - rewrite search_nil. split.
    + intros H. exists 0. split; [lia|]. split; [rewrite drop_0; exact H|intros; lia].
    + intros (i & Hi & Hm & _). simpl in Hi. replace i with 0 in Hm by lia.
      rewrite drop_0 in Hm. exact Hm.
  - rewrite search_cons. destruct (m (String c s)) eqn:E.
    + split.
      * intros H. exists 0. split; [lia|].
        split; [rewrite drop_0; congruence|intros; lia].
      * intros (i & Hi & Hm & Hlt). destruct i as [|i].
        { rewrite drop_0 in Hm. congruence. }
        specialize (Hlt 0 ltac:(lia)). rewrite drop_0 in Hlt. congruence.
    + rewrite IH. split.
      * intros (i & Hi & Hm & Hlt). exists (S i). split; [simpl; lia|].
        split; [exact Hm|]. intros [|j] Hj; [rewrite drop_0; exact E|].
        apply Hlt. lia.
      * intros (i & Hi & Hm & Hlt). destruct i as [|i].
        { rewrite drop_0 in Hm. congruence. }
        exists i. split; [simpl in Hi; lia|]. split; [exact Hm|].
        intros j Hj. apply (Hlt (S j)). lia.
Qed.

Lemma search_None {A} (m : string -> option A) s :
  search m s = None <-> forall i, i <= String.length s -> m (drop i s) = None.
Proof.
  induction s as [|c s IH].
  - rewrite search_nil. split.
    + intros H i Hi. simpl in Hi. replace i with 0 by lia. rewrite drop_0. exact H.
    + intros H. specialize (H 0 ltac:(lia)). rewrite drop_0 in H. exact H.
  - rewrite search_cons. destruct (m (String c s)) eqn:E.
    + split; [discriminate|]. intros H. specialize (H 0 ltac:(lia)).
      rewrite drop_0 in H. congruence.
    + rewrite IH. split.
      * intros H [|i] Hi; [rewrite drop_0; exact E|]. apply H. simpl in Hi. lia.
      * intros H i Hi. apply (H (S i)). simpl. lia.
Qed.

End StringFacts.

(** ** Classifier *)

Section ClassifierFacts.
Import Py Classifier Stated.
Local Arguments String.append !_ _ : simpl nomatch.

Lemma take_digits_app k ds rest :
  digits ds = true -> String.length ds <= k ->
  (String.length ds = k \/ head_is_digit rest = false) ->
  take_digits k (ds +:+ rest) = ds.
Proof.
  unfold digits. revert k. induction ds as [|c ds IH]; intros k Hd Hlen Hstop.
  - simpl. destruct rest as [|c rest]; [reflexivity|].
    destruct k as [|k]; [reflexivity|]. simpl in *.
    destruct Hstop as [Hstop|Hstop]; [discriminate|]. rewrite Hstop. reflexivity.
  - simpl in *. apply andb_prop in Hd as [Hc Hd].
    destruct k as [|k]; [lia|]. rewrite Hc, IH; [reflexivity|exact Hd|lia|].
    destruct Hstop as [Hstop|Hstop]; [left; lia|right; exact Hstop].
Qed.

Lemma take_digits_split k s :
  exists rest,
    s = take_digits k s +:+ rest
    /\ digits (take_digits k s) = true
    /\ String.length (take_digits k s) <= k
    /\ (String.length (take_digits k s) = k \/ head_is_digit rest = false).
Proof.
  unfold digits. revert k. induction s as [|c s IH]; intros k.
  - exists "". simpl. split; [reflexivity|]. split; [reflexivity|]. split; [lia|].
    right. reflexivity.
  - destruct k as [|k].
    + exists (String c s). simpl. split; [reflexivity|]. split; [reflexivity|].
      split; [lia|]. left. reflexivity.
    + simpl. destruct (isdigit c) eqn:Hc.
      * destruct (IH k) as (rest & Hs & Hd & Hlen & Hstop).
        exists rest. simpl. rewrite Hc, Hd.
        split; [congruence|]. split; [reflexivity|]. split; [lia|].
        destruct Hstop; [left; lia|right; assumption].
      * exists (String c s). simpl. split; [reflexivity|]. split; [reflexivity|].
        split; [lia|]. right. exact Hc.
Qed.

Lemma digits_4_iff s d :
  digits_4 s = Some d <->
  exists rest, s = d +:+ rest /\ digits d = true /\ String.length d = 4.
Proof.
  unfold digits_4. split.
  - destruct (String.length (take_digits 4 s) =? 4) eqn:E; [|discriminate].
    intros [= <-]. apply Nat.eqb_eq in E.
    destruct (take_digits_split 4 s) as (rest & Hs & Hd & _ & _).
    exists rest. auto.
  - intros (rest & -> & Hd & Hlen).
    rewrite take_digits_app by (auto; lia). rewrite Hlen. reflexivity.
Qed.

Lemma sep_not_digit c : is_sep c = true -> isdigit c = false.
Proof.
  unfold is_sep. intros H. apply orb_prop in H as [H|H];
    apply Ascii.eqb_eq in H; subst c; reflexivity.
Qed.

Lemma digits_1_4_cons c s :
  digits_1_4 (String c s)
  = if isdigit c then Some (String c (take_digits 3 s)) else None.
Proof.
  unfold digits_1_4.
  change (take_digits 4 (String c s))
    with (if isdigit c then String c (take_digits 3 s) else "").
  destruct (isdigit c); reflexivity.
Qed.

(** The first group of [(\d{1,4})] is the first run of one to four
    digits. *)
Lemma search_digits_iff filename ds :
  search digits_1_4 filename = Some ds <-> first_digit_run filename ds.
Proof.
  split.
  - revert ds. induction filename as [|c s IH]; intros ds; [discriminate|].
    rewrite search_cons, digits_1_4_cons. destruct (isdigit c) eqn:Hc.
    + intros H.
      assert (ds = String c (take_digits 3 s)) as -> by congruence. clear H.
      destruct (take_digits_split 3 s) as (rest & Hs & Hd & Hlen & Hstop).
      exists "", rest. unfold digits in *. cbn [all String.length no_digit].
      rewrite Hc, Hd. change ("" +:+ ?x) with x. rewrite ?app_cons, <- Hs.
      repeat split; [lia|lia|]. destruct Hstop; [left; lia|right; assumption].
    + intros H. destruct (IH _ H) as (pre & rest & -> & Hp & Hd & Hlen & Hstop).
      exists (String c pre), rest. unfold no_digit in *. cbn [all].
      rewrite Hc, Hp. repeat split; auto; lia.
  - intros (pre & rest & -> & Hp & Hd & Hlen & Hstop).
    induction pre as [|c pre IH].
    + change ("" +:+ ?x) with x.
      destruct ds as [|c ds]; [simpl in Hlen; lia|].
      assert (Hc : isdigit c = true)
        by (unfold digits in Hd; simpl in Hd; apply andb_prop in Hd; tauto).
      rewrite ?app_cons, search_cons, digits_1_4_cons, Hc.
      do 2 f_equal. apply take_digits_app.
      * unfold digits in *. simpl in Hd. apply andb_prop in Hd. tauto.
      * simpl in Hlen. lia.
      * simpl in Hlen. destruct Hstop; [left; simpl in *; lia|right; assumption].
    + unfold no_digit in Hp. simpl in Hp. apply andb_prop in Hp as [Hc Hp].
      apply negb_true_iff in Hc.
      rewrite ?app_cons, search_cons, digits_1_4_cons, Hc.
      apply IH, Hp.
Qed.

Lemma search_digits_None filename :
  search digits_1_4 filename = None <-> no_digit filename = true.
Proof.
  induction filename as [|c s IH]; [split; reflexivity|].
  rewrite search_cons, digits_1_4_cons. unfold no_digit in *. cbn [all].
  destruct (isdigit c); simpl.
  - split; discriminate.
  - exact IH.
Qed.

(** The group of [problem[_-]?(\d{4})] at an offset of the path. *)
Lemma problem_pattern_iff path i ds :
  problem_at path i ds <->
  i <= String.length path /\ problem_pattern (drop i path) = Some ds.
Proof.
  split.
  - intros (pre & sep & rest & -> & <- & Hsep & Hd & Hlen). split.
    { rewrite length_app_str. lia. }
    rewrite drop_app_length. unfold problem_pattern.
    rewrite startswith_app.
    change 7 with (String.length "problem"). rewrite drop_app_length.
    assert (Hd4 : digits_4 (ds +:+ rest) = Some ds)
      by (apply digits_4_iff; eauto).
    destruct Hsep as [->|[->| ->]]; simpl; try (rewrite Hd4; reflexivity).
    destruct ds as [|c ds]; [discriminate|].
    simpl in Hd. apply andb_prop in Hd as [Hc _]. simpl.
    destruct (is_sep c) eqn:Hs; [apply sep_not_digit in Hs; congruence|].
    simpl in Hd4. rewrite Hd4. reflexivity.
  - intros [Hi H]. unfold problem_pattern in H.
    destruct (startswith (drop i path) "problem") eqn:Hp; [|discriminate].
    apply startswith_split in Hp. change (String.length "problem") with 7 in Hp.
    set (r := drop 7 (drop i path)) in *.
    assert (Hpath : path = take i path +:+ "problem" +:+ r)
      by (rewrite <- Hp; symmetry; apply take_drop_str).
    destruct r as [|c r'] eqn:Er.
    { apply digits_4_iff in H as (rest & Hr & _ & Hlen).
      destruct ds; [discriminate|]. discriminate. }
    destruct (is_sep c) eqn:Hs.
    + destruct (digits_4 r') eqn:Hd4.
      * injection H as ->. apply digits_4_iff in Hd4 as (rest & -> & Hd & Hlen).
        exists (take i path), (String c ""), rest. rewrite Hpath at 1.
        repeat split; auto using length_take_str.
        unfold is_sep in Hs. apply orb_prop in Hs as [Hs|Hs];
          apply Ascii.eqb_eq in Hs; subst c; auto.
      * apply digits_4_iff in H as (rest & Hr & Hd & Hlen).
        destruct ds as [|d ds]; [discriminate|]. rewrite ?app_cons in Hr.
        injection Hr as -> _. simpl in Hd. apply andb_prop in Hd as [Hd _].
        apply sep_not_digit in Hs. congruence.
    + apply digits_4_iff in H as (rest & Hr & Hd & Hlen).
      exists (take i path), "", rest. rewrite Hpath at 1. rewrite Hr.
      repeat split; auto using length_take_str.
Qed.

Lemma problem_at_bound path i ds : problem_at path i ds -> i <= String.length path.
Proof. intros H. apply problem_pattern_iff in H. tauto. Qed.

(** C8. For every filename and path, [extract_problem_number] returns [r]
    exactly when the specification's wording yields [r]: the first run of 1
    to 4 digits of the filename; with no digit in the filename, the four
    digits of the leftmost [problem[-_]?####] of the path; and "Unknown"
    when the path has no such pattern either. *)
Theorem extract_problem_number_spec (filename path r : string) :
  extract_problem_number filename path = r <-> problem_id filename path r.
Proof.
  unfold extract_problem_number. split.
  - intros <-. destruct (search digits_1_4 filename) as [d|] eqn:Ef.
    + apply id_from_filename, search_digits_iff, Ef.
    + apply search_digits_None in Ef.
      destruct (search problem_pattern path) as [d|] eqn:Ep.
      * apply search_Some in Ep as (i & Hi & Hm & Hlt).
        apply id_from_path with i; [exact Ef|apply problem_pattern_iff; auto|].
        intros j ds' Hj Hat. apply problem_pattern_iff in Hat as [_ Hat].
        rewrite Hlt in Hat by exact Hj. discriminate.
      * apply id_unknown; [exact Ef|].
        intros i ds Hat. apply problem_pattern_iff in Hat as [Hi Hat].
        rewrite (proj1 (search_None _ _) Ep i Hi) in Hat. discriminate.
  - intros [ds Hrun|i ds Hno Hat Hleft|Hno Hnone].
    + apply search_digits_iff in Hrun. rewrite Hrun. reflexivity.
    + apply search_digits_None in Hno. rewrite Hno.
      apply problem_pattern_iff in Hat as [Hi Hat].
      assert (search problem_pattern path = Some ds) as ->; [|reflexivity].
      apply search_Some. exists i. repeat split; auto.
      intros j Hj. destruct (problem_pattern (drop j path)) as [d|] eqn:E; [|reflexivity].
      exfalso. apply (Hleft j d Hj). apply problem_pattern_iff. split; [lia|exact E].
    + apply search_digits_None in Hno. rewrite Hno.
      assert (search problem_pattern path = None) as ->; [|reflexivity].
      apply search_None. intros i Hi.
      destruct (problem_pattern (drop i path)) as [d|] eqn:E; [|reflexivity].
      exfalso. apply (Hnone i d). apply problem_pattern_iff. auto.
Qed.

End ClassifierFacts.

(** ** SourceLocator *)

Section LocatorFacts.
Import Py Locator.

(** C5. [parse_github_url] removes every occurrence of [.git] from the
    repository name, not only a trailing one: for the repository
    [octocat.github.io] it returns the name [octocathub.io]. *)
Theorem parse_github_url_drops_interior_git :
  parse_github_url "https://github.com/octocat/octocat.github.io"
  = Returned ("octocat", "octocathub.io", "").
Proof. vm_compute. reflexivity. Qed.

Example parse_github_url_bare :
  parse_github_url "https://github.com/octocat/leetcode.git/"
  = Returned ("octocat", "leetcode", "").
Proof. vm_compute. reflexivity. Qed.

Example parse_github_url_tree :
  parse_github_url "https://github.com/octocat/repo/tree/main/LeetCode-75"
  = Returned ("octocat", "repo", "LeetCode-75").
Proof. vm_compute. reflexivity. Qed.

Example parse_github_url_invalid :
  parse_github_url "https://github.com/octocat"
  = Raised "Invalid GitHub URL format".
Proof. vm_compute. reflexivity. Qed.

End LocatorFacts.

(** ** TreeCrawler *)

Section CrawlerFacts.
Import Py Classifier Crawler Stated.
Local Arguments String.append !_ _ : simpl nomatch.

Lemma lower_app s t : lower (s +:+ t) = lower s +:+ lower t.
Proof. induction s as [|c s IH]; [reflexivity|]. simpl. rewrite IH. reflexivity. Qed.

Lemma contains_here sub s : startswith s sub = true -> contains sub s = true.
Proof. intros H. destruct s; cbn [contains]; rewrite H; reflexivity. Qed.

Lemma contains_app pre sub post : contains sub (pre +:+ sub +:+ post) = true.
Proof.
  induction pre as [|c pre IH].
  - change (contains sub (sub +:+ post) = true). apply contains_here, startswith_app.
  - simpl. rewrite IH. apply orb_true_r.
Qed.

(** An occurrence in any letter case is an occurrence of the lower-case
    word in the lower-cased path. *)
Lemma occurs_contains_lower w s :
  occurs_in w s -> contains (lower w) (lower s) = true.
Proof.
  intros (pre & post & ->). rewrite !lower_app. apply contains_app.
Qed.

Lemma item_nested_ind (P : item -> Prop) :
  (forall type name path download_url listing,
      Forall P listing -> P (Item type name path download_url listing)) ->
  forall it, P it.
Proof.
  intros H. fix IH 1. intros [type name path download_url listing].
  apply H. induction listing as [|x l IHl]; constructor; [apply IH|exact IHl].
Qed.

Lemma Forall_flat_map {A B} (P : B -> Prop) (f : A -> list B) l :
  Forall (fun x => Forall P (f x)) l -> Forall P (flat_map f l).
Proof.
  induction 1 as [|x l Hx Hl IH]; simpl; [constructor|].
  apply Forall_app. split; assumption.
Qed.

Lemma scan_item_Forall http_get (P : SourceFile -> Prop) :
  (forall name path download_url,
      excluded path = false ->
      nonempty (get_file_content http_get download_url) = true ->
      P {| filename := name; path := path;
           code := get_file_content http_get download_url;
           language := get_language name;
           problem_number := extract_problem_number name path |}) ->
  forall it, Forall P (scan_item http_get it).
Proof.
  intros HP. induction it as [type name path download_url listing IH] using item_nested_ind.
  simpl. destruct (String.eqb type "file" && is_code_file name).
  - destruct (excluded path) eqn:Hex; [constructor|].
    destruct (nonempty (get_file_content http_get download_url)) eqn:Hne; constructor; auto.
  - destruct (String.eqb type "dir"); [|constructor].
    apply Forall_flat_map, IH.
Qed.

(** C7. For every directory tree, no source file the crawl yields has a
    path in which "test" or "helper" occurs in any letter case, whatever
    its extension. *)
Theorem scan_repository_excludes_test_helper
    (http_get : string -> response) (contents : list item) :
  Forall (fun sf =>
            forall w, lower w = "test" \/ lower w = "helper" ->
                      ~ occurs_in w (path sf))
         (scan_repository http_get contents).
Proof.
  apply Forall_flat_map, Forall_forall. intros it _.
  apply scan_item_Forall. intros name path download_url Hex _ w Hw Hocc. simpl in Hocc.
  apply occurs_contains_lower in Hocc. unfold excluded in Hex.
  apply orb_false_elim in Hex as [Ht Hh].
  destruct Hw as [Hw|Hw]; rewrite Hw in Hocc; congruence.
Qed.

Lemma get_file_content_usable http_get url :
  nonempty (get_file_content http_get url) = download_usable (http_get url).
Proof.
  unfold get_file_content, download_usable.
  destruct (http_get url) as [status text|]; [|reflexivity].
  destruct (status =? 200); reflexivity.
Qed.

Lemma scan_item_paths http_get it :
  map path (scan_item http_get it)
  = map item_path
      (List.filter (fun e => download_usable (http_get (item_url e))) (matched_entries it)).
Proof.
  induction it as [type name path download_url listing IH] using item_nested_ind.
  simpl. destruct (String.eqb type "file" && is_code_file name).
  - destruct (excluded path); [reflexivity|]. simpl.
    rewrite <- get_file_content_usable.
    destruct (nonempty (get_file_content http_get download_url)); reflexivity.
  - destruct (String.eqb type "dir"); [|reflexivity].
    induction IH as [|x l Hx Hl IHl]; [reflexivity|].
    simpl. rewrite List.filter_app, !map_app, Hx, IHl. reflexivity.
Qed.

Lemma scan_repository_paths http_get contents :
  map path (scan_repository http_get contents)
  = map item_path
      (List.filter (fun e => download_usable (http_get (item_url e)))
              (flat_map matched_entries contents)).
Proof.
  unfold scan_repository. induction contents as [|x l IH]; [reflexivity|].
  simpl. rewrite List.filter_app, !map_app, scan_item_paths, IH. reflexivity.
Qed.

(** C10. Every source file the crawl yields has non-empty code; the files
    yielded are, in order, the matched entries whose download neither fails
    nor returns an empty text, so there are at most as many as matched
    entries; and there can be strictly fewer. *)
Theorem scan_repository_nonempty_code :
  (forall (http_get : string -> response) (contents : list item),
      Forall (fun sf => code sf <> "") (scan_repository http_get contents)
      /\ map path (scan_repository http_get contents)
         = map item_path
             (List.filter (fun e => download_usable (http_get (item_url e)))
                     (flat_map matched_entries contents))
      /\ length (scan_repository http_get contents)
         <= length (flat_map matched_entries contents))
  /\ length (scan_repository Samples.serve_none Samples.scenario_tree)
     < length (flat_map matched_entries Samples.scenario_tree).
Proof.
  split; [|vm_compute; lia].
  intros http_get contents. split; [|split].
  - apply Forall_flat_map, Forall_forall. intros it _.
    apply scan_item_Forall. intros name path download_url _ Hne. simpl.
    intros E. rewrite E in Hne. discriminate.
  - apply scan_repository_paths.
  - rewrite <- (length_map path), scan_repository_paths, length_map.
    apply List.filter_length_le.
Qed.

(** The crawl scenario of the specification: of the three files, the two
    that are not test files are yielded.  The number of the second one is
    looked for in the file name and in a [problem####] part of the path, not
    in the directory name, so it is "Unknown". *)
Example scan_repository_scenario :
  map (fun sf => (filename sf, language sf, problem_number sf))
      (scan_repository Samples.serve_all Samples.scenario_tree)
  = [ ("1-two-sum.py", "Python", "1"); ("longest-substring.go", "Go", "Unknown") ].
Proof. vm_compute. reflexivity. Qed.

End CrawlerFacts.

(** ** BatchAnnotator *)

Section AnnotatorFacts.
Import Py Crawler Annotator Stated.
Local Arguments String.append !_ _ : simpl nomatch.

Variable json_loads : string -> option json.
Variable call_gemini_api : nat -> string -> api_result.

Local Abbreviation analyze := (analyze_with_gemini json_loads call_gemini_api).
Local Abbreviation annotate := (annotate_batch json_loads call_gemini_api).

Lemma flat_map_map_compose {A B C} (f : B -> list C) (g : A -> B) l :
  flat_map f (map g l) = flat_map (fun x => f (g x)) l.
Proof. induction l as [|x l IH]; simpl; [reflexivity|]. rewrite IH. reflexivity. Qed.

Lemma flat_map_ext_in {A B} (f g : A -> list B) l :
  (forall x, In x l -> f x = g x) -> flat_map f l = flat_map g l.
Proof.
  induction l as [|x l IH]; intros H; simpl; [reflexivity|].
  rewrite H, IH; [reflexivity| |left; reflexivity]. intros y Hy. apply H. right. exact Hy.
Qed.

(** The number of rounds is the ceiling of [n / 3]. *)
Lemma range_step_3 n :
  range_step n batch_size = map (fun k => k * 3) (seq 0 ((n + 2) / 3)).
Proof. unfold range_step, batch_size. replace (n + 3 - 1) with (n + 2) by lia. reflexivity. Qed.

Lemma ceil_3_bounds n : n <= 3 * ((n + 2) / 3) < n + 3.
Proof.
  pose proof (Nat.div_mod_eq (n + 2) 3) as E.
  pose proof (Nat.mod_upper_bound (n + 2) 3 ltac:(lia)) as U. lia.
Qed.

(** A run of the loop over the rounds [s], ..., [s + m - 1], after [s]
    earlier calls. *)
Lemma run_analyze_loop problems s m acc :
  run call_gemini_api s
    (analyze_loop json_loads problems (map (fun k => k * 3) (seq s m)) acc)
  = (acc ++ flat_map (fun k => annotate (k * 3) (batch_at problems (k * 3))) (seq s m),
     flat_map (fun k => Call (create_gemini_prompt (batch_at problems (k * 3)))
                        :: (if k * 3 + batch_size <? length problems
                            then [Sleep 2] else []))
              (seq s m)).
Proof.
  revert s acc. induction m as [|m IH]; intros s acc.
  - simpl. rewrite app_nil_r. reflexivity.
  - cbn [seq map analyze_loop run flat_map].
    unfold annotate_batch at 1. unfold batch_size at 3. rewrite Nat.div_mul by lia.
    destruct (s * 3 + batch_size <? length problems);
      cbn [run fst snd]; rewrite IH; cbn [fst snd app]; rewrite <- app_assoc; reflexivity.
Qed.

Lemma analyze_records problems :
  fst (analyze problems)
  = flat_map (fun k => annotate (k * 3) (batch_at problems (k * 3)))
             (seq 0 ((length problems + 2) / 3)).
Proof.
  unfold analyze_with_gemini, analyze_program. rewrite range_step_3, run_analyze_loop.
  reflexivity.
Qed.

Lemma analyze_events problems :
  snd (analyze problems)
  = flat_map (fun k => Call (create_gemini_prompt (batch_at problems (k * 3)))
                       :: (if k * 3 + batch_size <? length problems
                           then [Sleep 2] else []))
             (seq 0 ((length problems + 2) / 3)).
Proof.
  unfold analyze_with_gemini, analyze_program. rewrite range_step_3, run_analyze_loop.
  reflexivity.
Qed.

(** The batches, taken in order, make up the input. *)
Lemma batches_cover m (l : list SourceFile) :
  length l <= 3 * m -> flat_map (fun k => batch_at l (k * 3)) (seq 0 m) = l.
Proof.
  revert l. induction m as [|m IH]; intros l H.
  - destruct l; [reflexivity|simpl in H; lia].
  - cbn [seq flat_map]. rewrite <- seq_shift, flat_map_map_compose.
    rewrite (flat_map_ext_in _ (fun k => batch_at (skipn 3 l) (k * 3))).
    + rewrite IH by (rewrite length_skipn; lia).
      unfold batch_at, batch_size. simpl (0 * 3). rewrite skipn_O. apply firstn_skipn.
    + intros k _. unfold batch_at. rewrite skipn_skipn. f_equal. f_equal. lia.
Qed.

Lemma length_batch_at (l : list SourceFile) i :
  length (batch_at l i) = Nat.min 3 (length l - i).
Proof. unfold batch_at, batch_size. rewrite length_firstn, length_skipn. reflexivity. Qed.

(** The calls and the sleeps of consecutive rounds. *)
Lemma events_expected (B : nat -> list SourceFile) start m :
  flat_map (fun k => Call (create_gemini_prompt (B k))
                     :: (if S k <? start + m then [Sleep 2] else []))
           (seq start m)
  = expected_trace create_gemini_prompt (map B (seq start m)).
Proof.
  revert start. induction m as [|m IH]; intros start; [reflexivity|].
  cbn [seq flat_map map expected_trace].
  specialize (IH (S start)). replace (S start + m) with (start + S m) in IH by lia.
  rewrite IH. destruct m as [|m].
  - simpl. replace (S start <? start + 1) with false; [reflexivity|].
    symmetry. apply Nat.ltb_ge. lia.
  - replace (S start <? start + S (S m)) with true; [reflexivity|].
    symmetry. apply Nat.ltb_lt. lia.
Qed.

Lemma fold_add_solution batch i acc :
  fold_left add_solution (enumerate i batch) acc = acc +:+ solutions_text i batch.
Proof.
  revert i acc. induction batch as [|p batch IH]; intros i acc.
  - simpl. symmetry. apply app_empty_r.
  - unfold enumerate. cbn [length seq combine fold_left solutions_text].
    fold (enumerate (S i) batch). rewrite IH. unfold add_solution, solution_text.
    change 1200%Z with (Z.of_nat 1200). rewrite slice_from_0.
    rewrite !app_assoc_str. reflexivity.
Qed.

Lemma combine_map_self {A B} (f : A -> B) l :
  combine l (map f l) = map (fun x => (x, f x)) l.
Proof. induction l as [|x l IH]; simpl; [reflexivity|]. rewrite IH. reflexivity. Qed.

(** C9. For every input list of [n] files and every endpoint: the rounds
    of the loop cut the input, in order, into [ceil(n/3)] batches of 1 to 3
    files, every batch but the last having exactly 3; the calls and sleeps
    the run makes are one generation call per batch, on the prompt built from
    that batch, and a sleep of 2 between consecutive batches and none after
    the last; the records returned are, batch after batch, those made of what
    the endpoint answered to that batch's call, the call of batch [k] being
    the one made after [k] earlier calls; and the prompt is the fixed header
    followed, for each file of the batch, by its number, name, language and
    the first 1200 characters of its code at most. *)
Theorem analyze_with_gemini_batches (problems : list SourceFile) :
  let n := length problems in
  let batches := map (batch_at problems) (range_step n batch_size) in
  (length batches = (n + 2) / 3 /\ n <= 3 * ((n + 2) / 3) < n + 3)
  /\ concat batches = problems
  /\ Forall (fun b => 1 <= length b <= 3) batches
  /\ (forall k b, nth_error batches k = Some b -> S k < length batches -> length b = 3)
  /\ snd (analyze problems) = expected_trace create_gemini_prompt batches
  /\ fst (analyze problems)
     = flat_map (fun kb => batch_records json_loads
                             (call_gemini_api (fst kb) (create_gemini_prompt (snd kb)))
                             (snd kb))
                (enumerate 0 batches)
  /\ (forall batch, create_gemini_prompt batch = prompt_header +:+ solutions_text 1 batch)
  /\ (forall p, String.length (take 1200 (code p)) <= 1200
                /\ exists rest, code p = take 1200 (code p) +:+ rest).
Proof.
  intros n batches. subst batches. rewrite range_step_3, map_map.
  pose proof (ceil_3_bounds n) as Hm. set (m := (n + 2) / 3) in *.
  split; [|split; [|split; [|split; [|split; [|split; [|split]]]]]].
  - rewrite length_map, length_seq. auto.
  - rewrite <- flat_map_concat_map. apply batches_cover. subst n. lia.
  - apply List.Forall_forall. intros b Hb. apply in_map_iff in Hb as (k & <- & Hk).
    apply in_seq in Hk. rewrite length_batch_at. fold n. lia.
  - intros k b Hk Hlt. rewrite length_map, length_seq in Hlt.
    rewrite nth_error_map, nth_error_seq in Hk.
    destruct (k <? m) eqn:Ekm; [|discriminate]. simpl in Hk. injection Hk as <-.
    rewrite length_batch_at. fold n. lia.
  - rewrite analyze_events. fold n. fold m.
    rewrite <- (events_expected (fun k => batch_at problems (k * 3)) 0 m).
    apply flat_map_ext_in. intros k Hk. apply in_seq in Hk. unfold batch_size.
    do 2 f_equal. simpl (0 + m).
    destruct (k * 3 + 3 <? n) eqn:E1, (S k <? m) eqn:E2; try reflexivity.
    + apply Nat.ltb_lt in E1. apply Nat.ltb_ge in E2. lia.
    + apply Nat.ltb_ge in E1. apply Nat.ltb_lt in E2. lia.
  - rewrite analyze_records. fold n. fold m. unfold enumerate.
    rewrite length_map, length_seq, combine_map_self, flat_map_map_compose.
    apply flat_map_ext_in. intros k _. cbn [fst snd]. unfold annotate_batch, batch_size.
    rewrite Nat.div_mul by lia. reflexivity.
  - intros batch. apply fold_add_solution.
  - intros p. split; [apply length_take_le|].
    exists (drop 1200 (code p)). symmetry. apply take_drop_str.
Qed.

Lemma merge_fields_carries d p : carries (JObj (merge_fields d p)) p.
Proof.
  exists (merge_fields d p). split; [reflexivity|]. unfold merge_fields.
  destruct (_ !! "language"); simplify_map_eq; auto.
Qed.

Lemma default_record_carries title explanation p :
  carries (default_record title explanation p) p.
Proof. eexists. split; [reflexivity|]. split; reflexivity. Qed.

Lemma default_record_default title explanation p :
  default_with explanation (default_record title explanation p).
Proof. eexists. split; [reflexivity|]. repeat split; reflexivity. Qed.

Lemma merge_originals_carries analyzed originals merged :
  merge_originals analyzed originals = Some merged ->
  length merged = length originals ->
  Forall2 carries merged originals.
Proof.
  revert originals merged.
  induction analyzed as [|a analyzed IH]; intros originals merged Hm Hlen.
  - simpl in Hm. injection Hm as <-. destruct originals; [constructor|discriminate].
  - destruct originals as [|p originals].
    + destruct a; simpl in Hm; injection Hm as <-; discriminate.
    + destruct a as [| | | | | |d]; simpl in Hm; try discriminate.
      destruct (merge_originals analyzed originals) as [rest|] eqn:E; [|discriminate].
      injection Hm as <-. simpl in Hlen. constructor.
      * apply merge_fields_carries.
      * apply IH; [exact E|lia].
Qed.

(** What [parse_gemini_response] returns is empty or the merged array. *)
Lemma parse_gemini_response_cases response originals :
  parse_gemini_response json_loads response originals = []
  \/ exists analyzed,
       merge_originals analyzed originals
       = Some (parse_gemini_response json_loads response originals).
Proof.
  unfold parse_gemini_response. destruct (json_str response) as [text|]; [|auto].
  destruct (json_loads text) as [[| | | | |analyzed|]|]; auto.
  destruct (merge_originals analyzed originals) eqn:E; [|auto].
  right. exists analyzed. exact E.
Qed.

Lemma parse_gemini_response_unparsable response originals :
  unparsable json_loads response = true ->
  parse_gemini_response json_loads response originals = [].
Proof.
  unfold unparsable, parse_gemini_response.
  destruct (json_str response) as [text|]; [|reflexivity].
  destruct (json_loads text) as [[| | | | |analyzed|]|]; try reflexivity. discriminate.
Qed.

Lemma Forall2_map_l {A B} (R : B -> A -> Prop) (f : A -> B) l :
  (forall x, R (f x) x) -> Forall2 R (map f l) l.
Proof. intros H. induction l; constructor; auto. Qed.

Lemma annotate_carries i batch :
  (forall response,
      call_gemini_api (i / batch_size) (create_gemini_prompt batch) = Generated response ->
      parse_gemini_response json_loads response batch = []
      \/ length (parse_gemini_response json_loads response batch) = length batch) ->
  Forall2 carries (annotate i batch) batch.
Proof.
  intros H. unfold annotate_batch, batch_records.
  destruct (call_gemini_api (i / batch_size) (create_gemini_prompt batch)) as [response|].
  - specialize (H response eq_refl).
    destruct (parse_gemini_response_cases response batch) as [E|(analyzed & E)].
    + rewrite E. apply Forall2_map_l. intros p. apply default_record_carries.
    + destruct (parse_gemini_response json_loads response batch) as [|r rs] eqn:Ep.
      * apply Forall2_map_l. intros p. apply default_record_carries.
      * destruct H as [H|H]; [discriminate|].
        eapply merge_originals_carries; eauto.
  - apply Forall2_map_l. intros p. apply default_record_carries.
Qed.

Lemma Forall2_flat_map {A B C} (R : B -> C -> Prop) (f : A -> list B) (g : A -> list C) l :
  (forall x, In x l -> Forall2 R (f x) (g x)) ->
  Forall2 R (flat_map f l) (flat_map g l).
Proof.
  induction l as [|x l IH]; intros H; simpl; [constructor|].
  apply Forall2_app; [apply H; left; reflexivity|].
  apply IH. intros y Hy. apply H. right. exact Hy.
Qed.

(** C3. For every batch of a run: the list returned is made of the records
    of the batches before it, its own records and the records of the batches
    after it, whatever happens to it; when its generation call raises, its
    records are the default record of each of its files with explanation
    "Analysis failed"; when the call returns a reply that fails to parse as
    a JSON array, they are the default record of each file with explanation
    "Analysis pending"; a default record has difficulty, time complexity and
    space complexity "Unknown" and empty algorithms, data structures and
    tags. *)
Theorem analyze_with_gemini_failure_policy (problems : list SourceFile) (k : nat) :
  let m := (length problems + 2) / 3 in
  let batch := fun j => batch_at problems (j * 3) in
  let records := fun j => annotate (j * 3) (batch j) in
  k < m ->
  fst (analyze problems)
  = flat_map records (seq 0 k) ++ records k ++ flat_map records (seq (S k) (m - S k))
  /\ (call_gemini_api k (create_gemini_prompt (batch k)) = ApiError ->
      records k = map failed_record (batch k))
  /\ (forall response,
         call_gemini_api k (create_gemini_prompt (batch k)) = Generated response ->
         unparsable json_loads response = true ->
         records k = map pending_record (batch k))
  /\ (forall p, default_with "Analysis failed" (failed_record p)
                /\ default_with "Analysis pending" (pending_record p)).
Proof.
  intros m batch records Hk. split; [|split; [|split]].
  - rewrite analyze_records. fold m.
    replace m with (k + S (m - S k)) at 1 by lia.
    rewrite seq_app, flat_map_app. reflexivity.
  - intros H. unfold records, annotate_batch, batch_records, batch_size.
    rewrite Nat.div_mul by lia. fold (batch k). rewrite H. reflexivity.
  - intros response H Hu. unfold records, annotate_batch, batch_records, batch_size.
    rewrite Nat.div_mul by lia. fold (batch k). rewrite H.
    rewrite parse_gemini_response_unparsable by exact Hu. reflexivity.
  - intros p. split; apply default_record_default.
Qed.

Lemma length_flat_map_eq {A B C} (f : A -> list B) (g : A -> list C) l :
  (forall x, In x l -> length (f x) = length (g x)) ->
  length (flat_map f l) = length (flat_map g l).
Proof.
  induction l as [|x l IH]; intros H; simpl; [reflexivity|].
  rewrite !length_app, (H x), IH; [reflexivity| |left; reflexivity].
  intros y Hy. apply H. right. exact Hy.
Qed.

(** C1, amended. For every input list of source files: if every batch
    whose reply is turned into a non-empty list by [parse_gemini_response]
    gets a list as long as the batch, then [analyze_with_gemini] returns a
    list of the same length as its input, whose i-th record carries the i-th
    input file's path and code (also where a batch fell back to default
    records); and if one batch gets a non-empty list of another length while
    every other batch is as above, then the list returned differs in length
    from the input by as much as that list differs from its batch. *)
Theorem analyze_with_gemini_alignment (problems : list SourceFile) :
  let m := (length problems + 2) / 3 in
  let batch := fun k => batch_at problems (k * 3) in
  let fits := fun k response =>
    parse_gemini_response json_loads response (batch k) = []
    \/ length (parse_gemini_response json_loads response (batch k)) = length (batch k) in
  ((forall k response,
       k < m -> call_gemini_api k (create_gemini_prompt (batch k)) = Generated response ->
       fits k response) ->
   length (fst (analyze problems)) = length problems
   /\ forall i p, problems !! i = Some p ->
                  exists record, fst (analyze problems) !! i = Some record
                                 /\ carries record p)
  /\ (forall k response,
         k < m -> call_gemini_api k (create_gemini_prompt (batch k)) = Generated response ->
         parse_gemini_response json_loads response (batch k) <> [] ->
         (forall j response',
             j < m -> j <> k ->
             call_gemini_api j (create_gemini_prompt (batch j)) = Generated response' ->
             fits j response') ->
         length (fst (analyze problems)) + length (batch k)
         = length problems + length (parse_gemini_response json_loads response (batch k))).
Proof.
  intros m batch fits.
  pose proof (batches_cover m problems (proj1 (ceil_3_bounds _))) as E.
  assert (fitting : forall j,
             (forall response',
                 call_gemini_api j (create_gemini_prompt (batch j)) = Generated response' ->
                 fits j response') ->
             Forall2 carries (annotate (j * 3) (batch j)) (batch j)).
  { intros j Hj. apply annotate_carries. intros response Hr. unfold batch_size in Hr.
    rewrite Nat.div_mul in Hr by lia. apply Hj, Hr. }
  split.
  - intros H.
    assert (HF : Forall2 carries (fst (analyze problems)) problems).
    { rewrite analyze_records. fold m.
      cut (Forall2 carries
             (flat_map (fun k => annotate (k * 3) (batch k)) (seq 0 m))
             (flat_map batch (seq 0 m))).
      { unfold batch. rewrite E. auto. }
      apply Forall2_flat_map. intros k Hk. apply in_seq in Hk.
      apply fitting. intros response Hr. apply (H k response); [lia|exact Hr]. }
    split.
    + eapply Forall2_length, HF.
    + intros i p Hp. eapply Forall2_lookup_r in HF as (record & Hrec & Hc); eauto.
  - intros k response Hk Hcall Hne Hothers.
    assert (Hs : seq 0 m = seq 0 k ++ k :: seq (S k) (m - S k)).
    { replace m with (k + S (m - S k)) at 1 by lia. rewrite seq_app. reflexivity. }
    apply (f_equal (@length _)) in E. rewrite analyze_records. fold m.
    rewrite Hs in E |- *. rewrite !flat_map_app, !length_app in E |- *.
    cbn [flat_map] in E |- *. rewrite !length_app in E |- *.
    assert (L : forall l, (forall j, In j l -> j < m /\ j <> k) ->
                          length (flat_map (fun j => annotate (j * 3) (batch_at problems (j * 3))) l)
                          = length (flat_map (fun j => batch_at problems (j * 3)) l)).
    { intros l Hl. apply length_flat_map_eq. intros j Hj. destruct (Hl j Hj) as [Hm Hjk].
      eapply Forall2_length, (fitting j). intros response' Hr.
      apply (Hothers j response' Hm Hjk Hr). }
    rewrite (L (seq 0 k)) by (intros j Hj; apply in_seq in Hj; lia).
    rewrite (L (seq (S k) (m - S k))) by (intros j Hj; apply in_seq in Hj; lia).
    assert (annotate (k * 3) (batch_at problems (k * 3))
            = parse_gemini_response json_loads response (batch k)) as ->.
    { unfold annotate_batch, batch_records, batch_size. rewrite Nat.div_mul by lia.
      fold (batch k). rewrite Hcall.
      destruct (parse_gemini_response json_loads response (batch k));
        [contradiction Hne|]; reflexivity. }
    fold (batch k) in E. lia.
Qed.

End AnnotatorFacts.

(** C1. A reply that decodes to an array shorter than its batch breaks the
    alignment: with two files and a reply of one object, the list returned
    has one record. *)
Lemma analyze_with_gemini_short_reply :
  length (fst (Annotator.analyze_with_gemini Samples.json_loads Samples.one_object
                 Samples.two_files))
  <> length Samples.two_files.
Proof. vm_compute. discriminate. Qed.

(** The alignment on one file and a reply of one object; and the same
    reply for two files, where the list returned is one record short. *)
Lemma analyze_with_gemini_alignment_witness :
  (length (fst (Annotator.analyze_with_gemini Samples.json_loads Samples.one_object
                  Samples.one_file))
   = length Samples.one_file
   /\ forall i p,
        Samples.one_file !! i = Some p ->
        exists record,
          fst (Annotator.analyze_with_gemini Samples.json_loads Samples.one_object
                 Samples.one_file) !! i = Some record
          /\ Stated.carries record p)
  /\ length (fst (Annotator.analyze_with_gemini Samples.json_loads Samples.one_object
                    Samples.two_files)) + 2
     = 2 + 1.
Proof.
  split.
  - apply (proj1 (analyze_with_gemini_alignment Samples.json_loads Samples.one_object
                    Samples.one_file)).
    intros k response Hk H. vm_compute in Hk. assert (k = 0) as -> by lia.
    injection H as <-. right. vm_compute. reflexivity.
  - apply (proj2 (analyze_with_gemini_alignment Samples.json_loads Samples.one_object
                    Samples.two_files) 0 "[{}]").
    + vm_compute. lia.
    + reflexivity.
    + vm_compute. discriminate.
    + intros j response' Hj Hne. vm_compute in Hj. lia.
Defined.

(** The failure policy on two files and a reply in prose: both get the
    pending record. *)
Lemma analyze_with_gemini_failure_policy_witness :
  fst (Annotator.analyze_with_gemini Samples.json_loads Samples.prose Samples.two_files)
  = map (Annotator.pending_record) Samples.two_files.
Proof.
  destruct (analyze_with_gemini_failure_policy Samples.json_loads Samples.prose
              Samples.two_files 0 ltac:(vm_compute; lia)) as (H1 & _ & H3 & _).
  rewrite H1. cbv zeta in H3. rewrite (H3 _ eq_refl); [|vm_compute; reflexivity].
  simpl. rewrite ?app_nil_r. reflexivity.
Defined.


(** ** Upserter *)

Section UpserterFacts.
Import Py Annotator Upserter Stated.

Variable bind : params -> bound.

Lemma col_eq_sym a b : col_eq a b = col_eq b a.
Proof. destruct a, b; simpl; auto using String.eqb_sym. Qed.

Lemma conflicts_sym a b : conflicts a b = conflicts b a.
Proof.
  unfold conflicts.
  rewrite (col_eq_sym (problem_number a)), (col_eq_sym (language a)),
    (col_eq_sym (file_path a)), (col_eq_sym (user_email a)). reflexivity.
Qed.

Lemma col_eq_join a b v : col_eq a v = true -> col_eq b v = true -> col_eq a b = true.
Proof.
  destruct a, b, v; simpl; try discriminate.
  intros H1 H2. apply String.eqb_eq in H1, H2. subst. apply String.eqb_refl.
Qed.

Lemma conflicts_join a b v :
  conflicts a v = true -> conflicts b v = true -> conflicts a b = true.
Proof.
  unfold conflicts. intros H1 H2.
  repeat (apply andb_prop in H1 as [H1 ?]). repeat (apply andb_prop in H2 as [H2 ?]).
  repeat (apply andb_true_intro; split); eauto using col_eq_join.
Qed.

Lemma conflicts_self v : key_not_null v = true -> conflicts v v = true.
Proof.
  unfold key_not_null, conflicts.
  destruct (problem_number v), (language v), (file_path v), (user_email v);
    try discriminate. intros _. simpl. rewrite !String.eqb_refl. reflexivity.
Qed.

Lemma unique_keys_tail r table : unique_keys (r :: table) -> unique_keys table.
Proof.
  intros H i j ri rj Hi Hj Hc.
  specialize (H (S i) (S j) ri rj Hi Hj Hc). lia.
Qed.

Lemma unique_distinct table : unique_keys table <-> distinct_keys table.
Proof.
  induction table as [|r table IH]; simpl.
  - split; [auto|]. intros _ i j ri rj Hi. rewrite lookup_nil in Hi. discriminate.
  - split.
    + intros H. split; [|apply IH, (unique_keys_tail r), H].
      apply Forall_lookup. intros j rj Hj.
      destruct (conflicts (columns r) (columns rj)) eqn:E; [|reflexivity].
      specialize (H 0 (S j) r rj eq_refl Hj E). discriminate.
    + intros [Hr Ht] i j ri rj Hi Hj Hc. rewrite Forall_lookup in Hr.
      destruct i as [|i], j as [|j]; simpl in Hi, Hj.
      * reflexivity.
      * injection Hi as <-. rewrite (Hr j rj Hj) in Hc. discriminate.
      * injection Hj as <-. rewrite conflicts_sym, (Hr i ri Hi) in Hc. discriminate.
      * f_equal. apply (proj2 IH Ht i j ri rj); assumption.
Qed.

Lemma upsert_cons v now r table :
  upsert v now (r :: table)
  = if conflicts (columns r) v then (do_update r v :: table, false)
    else (r :: fst (upsert v now table), snd (upsert v now table)).
Proof. simpl. destruct (conflicts (columns r) v), (upsert v now table); reflexivity. Qed.

(** A row in conflict makes the statement an update. *)
Lemma upsert_hit v now table :
  present v table -> snd (upsert v now table) = false.
Proof.
  induction 1 as [r table Hr|r table _ IH]; rewrite upsert_cons.
  - rewrite Hr. reflexivity.
  - destruct (conflicts (columns r) v); [reflexivity|exact IH].
Qed.

(** The statement keeps every key the table has. *)
Lemma upsert_keeps v now table w :
  present w table -> present w (fst (upsert v now table)).
Proof.
  induction 1 as [r table Hr|r table Ht IH]; rewrite upsert_cons.
  - destruct (conflicts (columns r) v); simpl; apply Exists_cons_hd; exact Hr.
  - destruct (conflicts (columns r) v); simpl; apply Exists_cons_tl; [exact Ht|exact IH].
Qed.

(** After the statement the table has the key of its row. *)
Lemma upsert_adds v now table :
  key_not_null v = true -> present v (fst (upsert v now table)).
Proof.
  intros Hk. induction table as [|r table IH].
  - simpl. apply Exists_cons_hd. simpl. apply conflicts_self, Hk.
  - rewrite upsert_cons. destruct (conflicts (columns r) v) eqn:E; simpl.
    + apply Exists_cons_hd. exact E.
    + apply Exists_cons_tl, IH.
Qed.

Lemma upsert_apart v now table a :
  conflicts a v = false ->
  Forall (fun r' => conflicts a (columns r') = false) table ->
  Forall (fun r' => conflicts a (columns r') = false) (fst (upsert v now table)).
Proof.
  intros Hv. induction 1 as [|r table Hr Ht IH].
  - simpl. constructor; [exact Hv|constructor].
  - rewrite upsert_cons. destruct (conflicts (columns r) v); simpl.
    + constructor; [exact Hr|exact Ht].
    + constructor; [exact Hr|exact IH].
Qed.

Lemma upsert_distinct v now table :
  distinct_keys table -> distinct_keys (fst (upsert v now table)).
Proof.
  induction table as [|r table IH]; intros H.
  - simpl. split; [constructor|exact I].
  - destruct H as [Hr Ht]. rewrite upsert_cons.
    destruct (conflicts (columns r) v) eqn:E; simpl.
    + split; assumption.
    + split; [apply upsert_apart; assumption|apply IH, Ht].
Qed.

(** The statement on a table that has the key: the row in conflict is
    updated in place and nothing else changes. *)
Lemma upsert_update v now table i r :
  unique_keys table -> table !! i = Some r -> conflicts (columns r) v = true ->
  upsert v now table = (<[i := do_update r v]> table, false).
Proof.
  revert i. induction table as [|r0 table IH]; intros i Hu Hi Hc.
  - rewrite lookup_nil in Hi. discriminate.
  - rewrite upsert_cons. destruct i as [|i]; simpl in Hi.
    + injection Hi as ->. rewrite Hc. reflexivity.
    + destruct (conflicts (columns r0) v) eqn:E.
      * pose proof (conflicts_join _ _ _ E Hc) as E'.
        specialize (Hu 0 (S i) r0 r eq_refl Hi E'). discriminate.
      * rewrite (IH i (unique_keys_tail _ _ Hu) Hi Hc). reflexivity.
Qed.

Section Pass.
Variables (user_email : option string) (now : nat).

Lemma store_one_accepted st sol v :
  aborted st = false -> accepted bind user_email sol v ->
  store_one bind user_email now st sol
  = {| rows := fst (upsert v now (rows st));
       inserted := if snd (upsert v now (rows st)) then S (inserted st) else inserted st;
       updated := if snd (upsert v now (rows st)) then updated st else S (updated st);
       aborted := false |}.
Proof.
  intros Ha (ps & Hps & Hb). unfold store_one. rewrite Hps, Ha, Hb.
  destruct (upsert v now (rows st)) as [t []]; reflexivity.
Qed.

(** A pass over accepted records leaves every key it met in the table. *)
Lemma store_pass_adds solutions st :
  aborted st = false ->
  Forall (fun sol => exists v, accepted bind user_email sol v /\ key_not_null v = true)
         solutions ->
  let st' := fold_left (store_one bind user_email now) solutions st in
  aborted st' = false
  /\ (forall w, present w (rows st) -> present w (rows st'))
  /\ Forall (fun sol => exists v, accepted bind user_email sol v /\ present v (rows st'))
            solutions
  /\ (distinct_keys (rows st) -> distinct_keys (rows st')).
Proof.
  intros Ha H. revert st Ha. induction H as [|sol solutions (v & Hv & Hk) _ IH]; intros st Ha.
  - simpl. repeat split; auto.
  - cbn [fold_left]. rewrite (store_one_accepted st sol v Ha Hv).
    match goal with |- context [fold_left _ _ ?s] => set (st1 := s) end.
    destruct (IH st1 eq_refl) as (Ha' & Hkeep & Hall & Hd).
    split; [exact Ha'|]. split; [|split].
    + intros w Hw. apply Hkeep. simpl. apply upsert_keeps, Hw.
    + constructor; [|exact Hall]. exists v. split; [exact Hv|].
      apply Hkeep. simpl. apply upsert_adds, Hk.
    + intros Hd0. apply Hd. simpl. apply upsert_distinct, Hd0.
Qed.

(** A pass over records whose keys the table has only updates. *)
Lemma store_pass_updates solutions st :
  aborted st = false ->
  Forall (fun sol => exists v, accepted bind user_email sol v /\ present v (rows st))
         solutions ->
  let st' := fold_left (store_one bind user_email now) solutions st in
  aborted st' = false
  /\ inserted st' = inserted st
  /\ updated st' = updated st + length solutions
  /\ (distinct_keys (rows st) -> distinct_keys (rows st')).
Proof.
  intros Ha H. revert st Ha H.
  induction solutions as [|sol solutions IH]; intros st Ha H.
  - simpl. repeat split; auto.
  - apply Forall_cons_1 in H as [(v & Hv & Hp) H].
    cbn [fold_left]. rewrite (store_one_accepted st sol v Ha Hv), (upsert_hit v now _ Hp).
    match goal with |- context [fold_left _ _ ?s] => set (st1 := s) end.
    destruct (IH st1 eq_refl) as (Ha' & Hi & Hu & Hd).
    + eapply Forall_impl; [exact H|]. intros sol' (v' & Hv' & Hp').
      exists v'. split; [exact Hv'|]. simpl. apply upsert_keeps, Hp'.
    + split; [exact Ha'|]. split; [exact Hi|]. split.
      * rewrite Hu. simpl. lia.
      * intros Hd0. apply Hd. simpl. apply upsert_distinct, Hd0.
Qed.

End Pass.

(** X23. For every record the statement goes through with and every table
    with at most one row per key: when a row of the table has the record's
    key, none of its four columns being NULL, a call of [store_in_database]
    with that one record counts one update and no insert and changes that row
    only; in it the title, difficulty, time complexity, space complexity,
    algorithms, data structures, explanation, tags and code are the record's,
    and the four key columns and the creation timestamp are as they were. *)
Theorem store_in_database_overwrites
    (db : session) (now : nat) (sol : json) (owner : option string)
    (v : solution) (table : list row) (i : nat) (r : row) :
  connects db = true -> commits db = true ->
  accepted bind owner sol v ->
  unique_keys table ->
  table !! i = Some r ->
  conflicts (columns r) v = true ->
  exists r',
    store_in_database bind db now [sol] owner table = (Stored 0 1, <[i := r']> table)
    /\ (problem_title (columns r') = problem_title v
        /\ difficulty (columns r') = difficulty v
        /\ time_complexity (columns r') = time_complexity v
        /\ space_complexity (columns r') = space_complexity v
        /\ algorithms (columns r') = algorithms v
        /\ data_structures (columns r') = data_structures v
        /\ explanation (columns r') = explanation v
        /\ tags (columns r') = tags v
        /\ code (columns r') = code v)
    /\ (problem_number (columns r') = problem_number (columns r)
        /\ language (columns r') = language (columns r)
        /\ file_path (columns r') = file_path (columns r)
        /\ user_email (columns r') = user_email (columns r)
        /\ created_at r' = created_at r).
Proof.
  intros Hc Hm Hacc Hu Hi Hk. exists (do_update r v). split; [|split].
  - unfold store_in_database. rewrite Hc, Hm. cbn [fold_left].
    rewrite (store_one_accepted owner now
               {| rows := table; inserted := 0; updated := 0; aborted := false |}
               sol v eq_refl Hacc).
    cbn [rows inserted updated].
    rewrite (upsert_update v now table i r Hu Hi Hk). reflexivity.
  - repeat split; reflexivity.
  - repeat split; reflexivity.
Qed.

(** C2, amended. For every owner and every record list whose records the
    statement goes through with, each with its four key columns set: a
    second call of [store_in_database] with the same list, on the table a
    completed first call left, counts no insert and [len(records)] updates;
    and a table with at most one row per key has at most one row per key
    after each call. *)
Theorem store_in_database_idempotent
    (db1 db2 : session) (now1 now2 : nat) (solutions : list json)
    (owner : option string) (table table1 : list row) (n1 u1 : nat) :
  Forall (fun sol => exists v, accepted bind owner sol v /\ key_not_null v = true)
         solutions ->
  store_in_database bind db1 now1 solutions owner table = (Stored n1 u1, table1) ->
  connects db2 = true -> commits db2 = true ->
  exists table2,
    store_in_database bind db2 now2 solutions owner table1
    = (Stored 0 (length solutions), table2)
    /\ (unique_keys table -> unique_keys table1 /\ unique_keys table2).
Proof.
  intros Hacc H1 Hc2 Hm2. unfold store_in_database in H1.
  destruct (connects db1); [|discriminate]. destruct (commits db1); [|discriminate].
  set (st0 := {| rows := table; inserted := 0; updated := 0; aborted := false |}) in *.
  destruct (store_pass_adds owner now1 solutions st0 eq_refl Hacc) as (Ha & _ & Hall & Hd).
  cbv zeta in Ha, Hall, Hd.
  set (st1 := fold_left (store_one bind owner now1) solutions st0) in *.
  rewrite Ha in H1. injection H1 as _ _ <-.
  destruct (store_pass_updates owner now2 solutions
              {| rows := rows st1; inserted := 0; updated := 0; aborted := false |}
              eq_refl Hall) as (Ha2 & Hi2 & Hu2 & Hd2).
  unfold store_in_database. rewrite Hc2, Hm2, Ha2, Hi2, Hu2.
  eexists. split; [reflexivity|].
  intros Hu. apply unique_distinct in Hu. split; apply unique_distinct; auto.
Qed.

Lemma col_eq_null a : col_eq a None = false.
Proof. destruct a; reflexivity. Qed.

(** A key with a NULL column is in conflict with no key. *)
Lemma conflicts_null a v : key_not_null v = false -> conflicts a v = false.
Proof.
  unfold key_not_null, conflicts. intros H.
  destruct (problem_number v); [|rewrite col_eq_null; reflexivity].
  destruct (language v); [|rewrite col_eq_null, andb_false_r; reflexivity].
  destruct (file_path v); [|rewrite col_eq_null, !andb_false_r; reflexivity].
  destruct (user_email v); [discriminate|]. rewrite col_eq_null, !andb_false_r. reflexivity.
Qed.

Lemma upsert_null v now table :
  key_not_null v = false ->
  upsert v now table = (table ++ [ {| columns := v; created_at := now |} ], true).
Proof.
  intros H. induction table as [|r table IH]; [reflexivity|].
  rewrite upsert_cons, (conflicts_null (columns r) v H), IH. reflexivity.
Qed.

(** C6. A record with a NULL among its four key columns overwrites
    nothing: whatever the table holds, also a row with the same four key
    values, [store_in_database] on that record counts one insert and no
    update, leaves every row as it is and adds a row.  A run without an owner
    binds NULL to [user_email], so storing a record again in such a run
    duplicates its row instead of overwriting it. *)
Theorem store_in_database_null_key_inserts
    (db : session) (now : nat) (sol : json) (owner : option string)
    (v : solution) (table : list row) :
  connects db = true -> commits db = true ->
  accepted bind owner sol v ->
  key_not_null v = false ->
  store_in_database bind db now [sol] owner table
  = (Stored 1 0, table ++ [ {| columns := v; created_at := now |} ]).
Proof.
  intros Hc Hm Hacc Hk. unfold store_in_database. rewrite Hc, Hm. cbn [fold_left].
  rewrite (store_one_accepted owner now
             {| rows := table; inserted := 0; updated := 0; aborted := false |}
             sol v eq_refl Hacc).
  cbn [rows inserted updated aborted]. rewrite (upsert_null v now table Hk). reflexivity.
Qed.

End UpserterFacts.

(** C2. A record that raises is skipped by design and counted nowhere:
    the list the annotation returns for one file and a reply of an object
    and a number has two entries, the second call stores it with no insert
    and one update. *)
Lemma store_in_database_second_call_skips :
  length Samples.object_and_number_records = 2
  /\ fst (Upserter.store_in_database Samples.bind Samples.online 2
            Samples.object_and_number_records (Some "u1")
            (snd (Upserter.store_in_database Samples.bind Samples.online 1
                    Samples.object_and_number_records (Some "u1") [])))
     = Upserter.Stored 0 1.
Proof. vm_compute. split; reflexivity. Qed.

(** The second call on one record stored once. *)
Lemma store_in_database_idempotent_witness :
  exists table2,
    Upserter.store_in_database Samples.bind Samples.online 5
      [Samples.record_of "first"] (Some "u1") Samples.stored_once
    = (Upserter.Stored 0 1, table2)
    /\ (Stated.unique_keys [] ->
        Stated.unique_keys Samples.stored_once /\ Stated.unique_keys table2).
Proof.
  apply (store_in_database_idempotent Samples.bind Samples.online Samples.online 3 5
           [Samples.record_of "first"] (Some "u1") [] Samples.stored_once 1 0).
  - constructor; [|constructor]. exists (Samples.solution_of "first").
    split; [|reflexivity]. eexists. split; [reflexivity|]. vm_compute. reflexivity.
  - vm_compute. reflexivity.
  - reflexivity.
  - reflexivity.
Defined.

(** The specification's upsert scenario: the same key with a second
    explanation leaves one row, with the second explanation and the first
    creation time. *)
Lemma store_in_database_overwrites_witness :
  exists r',
    Upserter.store_in_database Samples.bind Samples.online 5
      [Samples.record_of "second"] (Some "u1") Samples.stored_once
    = (Upserter.Stored 0 1, [r'])
    /\ Upserter.explanation (Upserter.columns r') = Some "second"
    /\ Upserter.created_at r' = 3.
Proof.
  destruct (store_in_database_overwrites Samples.bind Samples.online 5
              (Samples.record_of "second") (Some "u1") (Samples.solution_of "second")
              Samples.stored_once 0
              {| Upserter.columns := Samples.solution_of "first"; Upserter.created_at := 3 |})
    as (r' & Hs & Hnew & Hold).
  - reflexivity.
  - reflexivity.
  - eexists. split; [reflexivity|]. vm_compute. reflexivity.
  - apply unique_distinct. simpl. split; [constructor|exact I].
  - reflexivity.
  - vm_compute. reflexivity.
  - exists r'. split; [exact Hs|]. split; [apply Hnew|apply Hold].
Defined.

(** The upsert scenario in a run without an owner: the row stored with the
    first explanation has the key values of the record, and the record with
    the second explanation is added beside it. *)
Lemma store_in_database_null_key_inserts_witness :
  Upserter.store_in_database Samples.bind Samples.online 5
    [Samples.record_of "second"] None
    [ {| Upserter.columns := Samples.solution_without_owner "first";
         Upserter.created_at := 3 |} ]
  = (Upserter.Stored 1 0,
     [ {| Upserter.columns := Samples.solution_without_owner "first";
          Upserter.created_at := 3 |} ]
     ++ [ {| Upserter.columns := Samples.solution_without_owner "second";
             Upserter.created_at := 5 |} ]).
Proof.
  apply (store_in_database_null_key_inserts Samples.bind Samples.online 5
           (Samples.record_of "second") None (Samples.solution_without_owner "second")).
  - reflexivity.
  - reflexivity.
  - eexists. split; [reflexivity|]. vm_compute. reflexivity.
  - reflexivity.
Defined.

(** The owner is optional, and a run without one binds NULL to
    [user_email]; a unique index never finds a NULL equal to anything, so the
    second call inserts the same record again. *)
Example store_in_database_without_owner :
  fst (Upserter.store_in_database Samples.bind Samples.online 2
         [Samples.record_of "first"] None
         (snd (Upserter.store_in_database Samples.bind Samples.online 1
                 [Samples.record_of "first"] None [])))
  = Upserter.Stored 1 0.
Proof. vm_compute. reflexivity. Qed.


(** ** PipelineOrchestrator *)

Section OrchestratorFacts.
Import Py Orchestrator Stated.

Lemma store_in_database_outcome bind db now solutions owner table :
  (exists n u, fst (Upserter.store_in_database bind db now solutions owner table)
               = Upserter.Stored n u)
  <-> Upserter.connects db = true /\ Upserter.commits db = true.
Proof.
  unfold Upserter.store_in_database.
  destruct (Upserter.connects db), (Upserter.commits db); simpl; split;
    try (intros (n & u & H); discriminate H); try (intros [H1 H2]; discriminate);
    eauto.
Qed.

Lemma summary_languages_defined analyzed :
  Forall summarizable analyzed -> exists languages, summary_languages analyzed = Some languages.
Proof.
  intros H. unfold summary_languages. generalize (@nil Annotator.json) as elements.
  induction H as [|record analyzed (d & -> & Hh) _ IH]; intros elements; simpl; [eauto|].
  rewrite Hh. apply IH.
Qed.

(** C4, amended. For every run whose analysed records are dicts with a
    language that can be put in a set: the run ends with the summary, over
    all the analysed records, exactly when the connection test passes, the
    reference parses, the crawl yields at least one file, the database
    set-up succeeds and the storage connects and commits; none of this
    depends on what the generation calls return or raise, nor on the records
    the store skips.  A run that fails one of the conditions returns early,
    without a summary. *)
Theorem process_repository_summary
    (w : world) (github_url : string) (owner : option string) (table : list Upserter.row) :
  let problems :=
    match Locator.parse_github_url github_url with
    | Returned (o, r, p) => Crawler.scan_repository (http_get w) (get_repo_contents w o r p)
    | Raised _ => []
    end in
  let analyzed :=
    fst (Annotator.analyze_with_gemini (json_loads w) (call_gemini_api w) problems) in
  Forall summarizable analyzed ->
  ((exists total languages,
       fst (process_repository w github_url owner table) = ProcessComplete total languages)
   <-> (test_connection w = true
        /\ (exists reference, Locator.parse_github_url github_url = Returned reference)
        /\ problems <> []
        /\ setup_database w = true
        /\ Upserter.connects (store_session w) = true
        /\ Upserter.commits (store_session w) = true))
  /\ (forall total languages,
         fst (process_repository w github_url owner table) = ProcessComplete total languages ->
         total = length analyzed).
Proof.
  intros problems analyzed Hs. subst analyzed problems. unfold process_repository.
  destruct (test_connection w).
  2:{ split; [split|]; [intros (? & ? & H); discriminate H|intros (H & _); discriminate H|].
      intros ? ? H. discriminate H. }
  destruct (Locator.parse_github_url github_url) as [[[o r] p]|message].
  2:{ split; [split|]; [intros (? & ? & H); discriminate H| |].
      - intros (_ & (reference & H) & _). discriminate H.
      - intros ? ? H. discriminate H. }
  destruct (Crawler.scan_repository (http_get w) (get_repo_contents w o r p))
    as [|f problems] eqn:Escan.
  { split; [split|]; [intros (? & ? & H); discriminate H| |].
    - intros (_ & _ & H & _). congruence.
    - intros ? ? H. discriminate H. }
  destruct (setup_database w).
  2:{ split; [split|]; [intros (? & ? & H); discriminate H| |].
      - intros (_ & _ & _ & H & _). discriminate H.
      - intros ? ? H. discriminate H. }
  destruct (summary_languages_defined _ Hs) as (languages & El).
  pose proof (store_in_database_outcome (bind w) (store_session w) (now w)
                (fst (Annotator.analyze_with_gemini (json_loads w) (call_gemini_api w)
                        (f :: problems))) owner table) as Hstore.
  destruct (Upserter.store_in_database (bind w) (store_session w) (now w) _ owner table)
    as [[n u|] table'] eqn:Est; simpl in Hstore.
  - rewrite El. simpl. split; [split|].
    + intros _. repeat split; eauto; try discriminate; apply Hstore; eauto.
    + eauto.
    + intros total languages' H. injection H as <- _. reflexivity.
  - simpl. split; [split|].
    + intros (? & ? & H). discriminate H.
    + intros (_ & _ & _ & _ & H1 & H2).
      destruct (proj2 Hstore (conj H1 H2)) as (? & ? & H). discriminate H.
    + intros ? ? H. discriminate H.
Qed.

End OrchestratorFacts.

(** C4. An error of the persistence stage aborts the run: the reference
    parses and the source is reachable, the storage cannot connect, and the
    run returns early instead of giving the summary. *)
Lemma process_repository_storage_error :
  Orchestrator.test_connection Samples.world_without_storage = true
  /\ Locator.parse_github_url Samples.repository_url = Py.Returned ("octocat", "leetcode", "")
  /\ fst (Orchestrator.process_repository Samples.world_without_storage
            Samples.repository_url (Some "u1") [])
     = Orchestrator.DatabaseStorageError.
Proof. vm_compute. repeat split; reflexivity. Qed.

(** A run that ends with the summary although every generation call
    raises. *)
Lemma process_repository_summary_witness :
  exists total languages,
    fst (Orchestrator.process_repository Samples.world_without_generation
           Samples.repository_url (Some "u1") [])
    = Orchestrator.ProcessComplete total languages.
Proof.
  apply (process_repository_summary Samples.world_without_generation
           Samples.repository_url (Some "u1") []).
  - vm_compute. repeat constructor; eexists; split; reflexivity.
  - vm_compute. repeat split; try reflexivity; try discriminate. eexists. reflexivity.
Defined.

(** The run in which every generation call raises still ends with the
    summary, over one default record per file. *)
Example process_repository_without_generation :
  fst (Orchestrator.process_repository Samples.world_without_generation
         Samples.repository_url (Some "u1") [])
  = Orchestrator.ProcessComplete 2 [Annotator.JStr "Python"; Annotator.JStr "Go"].
Proof. vm_compute. reflexivity. Qed.

(** * Further properties of the code *)

(** ** SourceLocator, continued *)

Section LocatorMore.
Import Py Locator Stated.
Local Arguments String.append !_ _ : simpl nomatch.

Lemma rstrip_by_snoc p s c :
  p c = true -> rstrip_by p (s +:+ String c "") = rstrip_by p s.
Proof.
  intros Hc. induction s as [|a s IH]; simpl.
  - rewrite Hc. reflexivity.
  - rewrite IH. reflexivity.
Qed.

Lemma rstrip_by_app p a s :
  rstrip_by p s <> "" -> rstrip_by p (a +:+ s) = a +:+ rstrip_by p s.
Proof.
  intros Hs. induction a as [|c a IH]; simpl; [reflexivity|].
  rewrite IH. destruct (a +:+ rstrip_by p s) eqn:E; [|reflexivity].
  destruct a; simpl in E; [contradiction|discriminate].
Qed.

Lemma rstrip_by_none p s :
  all (fun c => negb (p c)) s = true -> rstrip_by p s = s.
Proof.
  induction s as [|c s IH]; simpl; [reflexivity|].
  intros H. apply andb_prop in H as [Hc Hs]. apply negb_true_iff in Hc.
  rewrite (IH Hs), Hc. destruct s; reflexivity.
Qed.

(** X1. A trailing slash does not change what [parse_github_url] makes of
    a reference. *)
Theorem parse_github_url_trailing_slash (url : string) :
  parse_github_url (url +:+ "/") = parse_github_url url.
Proof.
  unfold parse_github_url, rstrip_char. rewrite rstrip_by_snoc; reflexivity.
Qed.

Lemma span_split p s a b : span p s = (a, b) -> s = a +:+ b /\ all p a = true.
Proof.
  revert a b. induction s as [|c s IH]; intros a b H; simpl in H.
  - injection H as <- <-. split; reflexivity.
  - destruct (p c) eqn:Hc.
    + destruct (span p s) as [a' b'] eqn:E. injection H as <- <-.
      destruct (IH a' b' eq_refl) as [-> Ha]. simpl. rewrite Hc, Ha. split; reflexivity.
    + injection H as <- <-. split; reflexivity.
Qed.

Lemma span_app_stop p a c b :
  all p a = true -> p c = false -> span p (a +:+ String c b) = (a, String c b).
Proof.
  intros Ha Hc. induction a as [|x a IH]; simpl.
  - rewrite Hc. reflexivity.
  - simpl in Ha. apply andb_prop in Ha as [Hx Ha]. rewrite Hx, (IH Ha). reflexivity.
Qed.

Lemma span_all p a : all p a = true -> span p a = (a, "").
Proof.
  induction a as [|x a IH]; simpl; [reflexivity|].
  intros Ha. apply andb_prop in Ha as [Hx Ha]. rewrite Hx, (IH Ha). reflexivity.
Qed.

Lemma all_ext_str (p q : ascii -> bool) s :
  (forall c, p c = q c) -> all p s = all q s.
Proof. intros H. induction s as [|c s IH]; simpl; [reflexivity|]. rewrite H, IH. reflexivity. Qed.

Lemma search_skip {A} (m : string -> option A) c s :
  m (String c s) = None -> search m (String c s) = search m s.
Proof. intros H. rewrite search_cons, H. reflexivity. Qed.

Lemma search_here {A} (m : string -> option A) s d :
  m s = Some d -> search m s = Some d.
Proof. intros H. destruct s; simpl; rewrite H; reflexivity. Qed.

Lemma tree_pattern_other c s : Ascii.eqb "g" c = false -> tree_pattern (String c s) = None.
Proof. intros H. unfold tree_pattern. cbn [startswith]. rewrite H. reflexivity. Qed.

Lemma pattern_other c s : Ascii.eqb "g" c = false -> pattern (String c s) = None.
Proof. intros H. unfold pattern. cbn [startswith]. rewrite H. reflexivity. Qed.

(** Nothing matches inside the scheme. *)
Lemma search_https {A} (m : string -> option A) rest :
  (forall c s, Ascii.eqb "g" c = false -> m (String c s) = None) ->
  search m ("https://" +:+ rest) = search m rest.
Proof.
  intros H.
  change ("https://" +:+ rest)
    with (String "h" (String "t" (String "t" (String "p" (String "s"
            (String ":" (String "/" (String "/" rest)))))))).
  rewrite !search_skip by (apply H; reflexivity). reflexivity.
Qed.

Lemma startswith_empty s : startswith s "" = true.
Proof. destruct s; reflexivity. Qed.

Lemma nonempty_cons s : nonempty s = true -> exists c s', s = String c s'.
Proof. destruct s; [discriminate|eauto]. Qed.

(** The tree pattern on a reference of that shape. *)
Lemma tree_pattern_here o r b sub :
  nonempty o = true -> slash_free o = true ->
  nonempty r = true -> slash_free r = true ->
  nonempty b = true -> slash_free b = true ->
  nonempty sub = true -> one_line sub = true ->
  tree_pattern ("github.com/" +:+ o +:+ "/" +:+ r +:+ "/tree/" +:+ b +:+ "/" +:+ sub)
  = Some (o, r, sub).
Proof.
  intros Ho So Hr Sr Hb Sb Hs Ss. unfold tree_pattern.
  rewrite startswith_app.
  change 11 with (String.length "github.com/"). rewrite drop_app_length.
  change (o +:+ "/" +:+ r +:+ "/tree/" +:+ b +:+ "/" +:+ sub)
    with (o +:+ String "/" (r +:+ "/tree/" +:+ b +:+ "/" +:+ sub)).
  rewrite (span_app_stop notslash o) by (exact So || reflexivity).
  change (drop 1 (String "/" ?x)) with (drop 0 x). rewrite drop_0.
  change (r +:+ "/tree/" +:+ b +:+ "/" +:+ sub)
    with (r +:+ String "/" ("tree/" +:+ b +:+ "/" +:+ sub)).
  rewrite (span_app_stop notslash r) by (exact Sr || reflexivity).
  change (String "/" ("tree/" +:+ b +:+ "/" +:+ sub))
    with ("/tree/" +:+ b +:+ "/" +:+ sub).
  change 6 with (String.length "/tree/"). rewrite drop_app_length, startswith_app.
  change (b +:+ "/" +:+ sub) with (b +:+ String "/" sub).
  rewrite (span_app_stop notslash b) by (exact Sb || reflexivity).
  change (drop 1 (String "/" sub)) with (drop 0 sub). rewrite drop_0.
  rewrite (span_all notnewline sub) by exact Ss.
  rewrite Ho, Hr, Hb, Hs. cbn [startswith]. rewrite Ascii.eqb_refl, !startswith_empty. reflexivity.
Qed.

Lemma pattern_here o r :
  nonempty o = true -> slash_free o = true ->
  nonempty r = true -> slash_free r = true ->
  pattern ("github.com/" +:+ o +:+ "/" +:+ r) = Some (o, r).
Proof.
  intros Ho So Hr Sr. unfold pattern. rewrite startswith_app.
  change 11 with (String.length "github.com/"). rewrite drop_app_length.
  change (o +:+ "/" +:+ r) with (o +:+ String "/" r).
  rewrite (span_app_stop notslash o) by (exact So || reflexivity).
  change (drop 1 (String "/" r)) with (drop 0 r). rewrite drop_0.
  rewrite (span_all notslash r) by exact Sr.
  rewrite Ho, Hr. cbn [startswith]. rewrite Ascii.eqb_refl, !startswith_empty. reflexivity.
Qed.

Lemma endswith_cons_single a s c :
  endswith (String a s) (String c "")
  = match s with
    | EmptyString => Ascii.eqb a c
    | String _ _ => endswith s (String c "")
    end.
Proof.
  unfold endswith. destruct s as [|b s].
  - simpl. destruct (Ascii.eqb a c); reflexivity.
  - cbn [String.length]. simpl (_ <=? _). simpl (_ - _). rewrite Nat.sub_0_r.
    reflexivity.
Qed.

Lemma rstrip_no_trailing s c :
  nonempty s = true -> endswith s (String c "") = false -> rstrip_char s c = s.
Proof.
  unfold rstrip_char. induction s as [|a s IH]; [discriminate|].
  intros _ H. rewrite endswith_cons_single in H. simpl. destruct s as [|b s].
  - simpl. rewrite Ascii.eqb_sym, H. reflexivity.
  - rewrite (IH eq_refl H). reflexivity.
Qed.

(** X2. A tree-style reference is parsed back into its parts: for an
    owner, a repository and a branch that are non-empty and have no slash,
    and a sub-path that is non-empty, on one line and without a trailing
    slash, [parse_github_url] returns the owner, the repository with every
    [.git] removed, and the sub-path. *)
Theorem parse_github_url_tree_round_trip (o r b sub : string) :
  nonempty o = true -> slash_free o = true ->
  nonempty r = true -> slash_free r = true ->
  nonempty b = true -> slash_free b = true ->
  nonempty sub = true -> one_line sub = true -> endswith sub "/" = false ->
  parse_github_url
    ("https://github.com/" +:+ o +:+ "/" +:+ r +:+ "/tree/" +:+ b +:+ "/" +:+ sub)
  = Returned (o, replace r ".git" "", sub).
Proof.
  intros Ho So Hr Sr Hb Sb Hs Ss Es. unfold parse_github_url.
  pose proof (rstrip_no_trailing sub "/" Hs Es) as Rs. unfold rstrip_char in *.
  replace ("https://github.com/" +:+ o +:+ "/" +:+ r +:+ "/tree/" +:+ b +:+ "/" +:+ sub)
    with (("https://github.com/" +:+ o +:+ "/" +:+ r +:+ "/tree/" +:+ b +:+ "/") +:+ sub)
    by (rewrite !app_assoc_str; reflexivity).
  rewrite rstrip_by_app, Rs.
  2:{ rewrite Rs. destruct sub; [discriminate|discriminate]. }
  rewrite !app_assoc_str.
  change ("https://github.com/" +:+ ?x) with ("https://" +:+ "github.com/" +:+ x).
  rewrite (search_https tree_pattern) by apply tree_pattern_other.
  rewrite (search_here tree_pattern _ (o, r, sub)); [reflexivity|].
  apply tree_pattern_here; assumption.
Qed.

Lemma count_app p s t : count p (s +:+ t) = count p s + count p t.
Proof. induction s as [|c s IH]; simpl; [reflexivity|]. rewrite IH. lia. Qed.

Lemma count_drop_le p i s : count p (drop i s) <= count p s.
Proof.
  revert i. induction s as [|c s IH]; intros [|i]; simpl; try lia.
  specialize (IH i). lia.
Qed.

Lemma count_slash_free s : slash_free s = true -> count is_slash s = 0.
Proof.
  unfold slash_free, notslash, is_slash. induction s as [|c s IH]; simpl; [reflexivity|].
  intros H. apply andb_prop in H as [Hc Hs]. apply negb_true_iff in Hc.
  rewrite Hc, (IH Hs). reflexivity.
Qed.

(** A match of the tree pattern takes at least three slashes. *)
Lemma tree_pattern_slashes t x : tree_pattern t = Some x -> 3 <= count is_slash t.
Proof.
  unfold tree_pattern. destruct (startswith t "github.com/") eqn:Hg; [|discriminate].
  apply startswith_split in Hg. change (String.length "github.com/") with 11 in Hg.
  destruct (span notslash (drop 11 t)) as [owner r1] eqn:E1.
  destruct (span notslash (drop 1 r1)) as [repo r2] eqn:E2.
  destruct (span notslash (drop 6 r2)) as [branch r3] eqn:E3.
  destruct (span notnewline (drop 1 r3)) as [sub r4] eqn:E4.
  destruct (nonempty owner && startswith r1 "/" && nonempty repo
            && startswith r2 "/tree/" && nonempty branch
            && startswith r3 "/" && nonempty sub) eqn:C; [|discriminate].
  intros _. repeat (apply andb_prop in C as [C ?]).
  apply span_split in E1 as [E1 _]. apply span_split in E2 as [E2 _].
  repeat match goal with
         | H : startswith _ _ = true |- _ => apply startswith_split in H
         end.
  change (String.length "/") with 1 in *. change (String.length "/tree/") with 6 in *.
  assert (K2 : 2 <= count is_slash r2).
  { match goal with H : r2 = _ |- _ => rewrite H end. rewrite count_app.
    change (count is_slash "/tree/") with 2. lia. }
  assert (K1 : 3 <= count is_slash r1).
  { match goal with H : r1 = _ |- _ => rewrite H end. rewrite count_app, E2, count_app.
    change (count is_slash "/") with 1. lia. }
  rewrite Hg, count_app, E1, count_app. lia.
Qed.

Lemma replace_go_all p old skip s :
  all p s = true -> all p (replace_go old "" skip s) = true.
Proof.
  revert skip. induction s as [|c s IH]; intros skip H; [reflexivity|].
  cbn [all] in H. apply andb_prop in H as [Hc Hs].
  destruct skip as [|k]; cbn [replace_go]; [|apply IH, Hs].
  destruct (startswith (String c s) old).
  - change ("" +:+ ?x) with x. apply IH, Hs.
  - cbn [all]. rewrite Hc. apply IH, Hs.
Qed.

Lemma replace_git_all p s : all p s = true -> all p (replace s ".git" "") = true.
Proof. apply replace_go_all. Qed.

(** X3. A bare reference is parsed back into its parts: for an owner and
    a repository that are non-empty and have no slash, [parse_github_url]
    returns the owner, the repository with every [.git] removed, and an
    empty sub-path. *)
Theorem parse_github_url_bare_round_trip (o r : string) :
  nonempty o = true -> slash_free o = true ->
  nonempty r = true -> slash_free r = true ->
  parse_github_url ("https://github.com/" +:+ o +:+ "/" +:+ r)
  = Returned (o, replace r ".git" "", "").
Proof.
  intros Ho So Hr Sr. unfold parse_github_url, rstrip_char.
  assert (Rr : rstrip_by (Ascii.eqb "/") r = r).
  { apply rstrip_by_none. etransitivity; [|exact Sr]. apply all_ext_str.
    intros c. unfold notslash. rewrite Ascii.eqb_sym. reflexivity. }
  replace ("https://github.com/" +:+ o +:+ "/" +:+ r)
    with (("https://github.com/" +:+ o +:+ "/") +:+ r)
    by (rewrite !app_assoc_str; reflexivity).
  rewrite rstrip_by_app, Rr.
  2:{ rewrite Rr. destruct r; discriminate. }
  rewrite !app_assoc_str.
  change ("https://github.com/" +:+ ?x) with ("https://" +:+ "github.com/" +:+ x).
  rewrite (search_https tree_pattern) by apply tree_pattern_other.
  rewrite (search_https pattern) by apply pattern_other.
  assert (search tree_pattern ("github.com/" +:+ o +:+ "/" +:+ r) = None) as ->.
  { apply search_None. intros i _.
    destruct (tree_pattern (drop i ("github.com/" +:+ o +:+ "/" +:+ r))) as [x|] eqn:E;
      [|reflexivity].
    apply tree_pattern_slashes in E.
    pose proof (count_drop_le is_slash i ("github.com/" +:+ o +:+ "/" +:+ r)) as L.
    rewrite !count_app, (count_slash_free o So), (count_slash_free r Sr) in L.
    change (count is_slash "github.com/") with 1 in L.
    change (count is_slash "/") with 1 in L. lia. }
  rewrite (search_here pattern _ (o, r)); [reflexivity|].
  apply pattern_here; assumption.
Qed.

Lemma tree_pattern_fields t o r sub :
  tree_pattern t = Some (o, r, sub) ->
  nonempty o = true /\ slash_free o = true /\ slash_free r = true /\ one_line sub = true.
Proof.
  unfold tree_pattern. destruct (startswith t "github.com/"); [|discriminate].
  destruct (span notslash (drop 11 t)) as [owner r1] eqn:E1.
  destruct (span notslash (drop 1 r1)) as [repo r2] eqn:E2.
  destruct (span notslash (drop 6 r2)) as [branch r3] eqn:E3.
  destruct (span notnewline (drop 1 r3)) as [sub' r4] eqn:E4.
  destruct (nonempty owner && startswith r1 "/" && nonempty repo
            && startswith r2 "/tree/" && nonempty branch
            && startswith r3 "/" && nonempty sub') eqn:C; [|discriminate].
  intros [= <- <- <-]. repeat (apply andb_prop in C as [C ?]).
  apply span_split in E1 as [_ E1]. apply span_split in E2 as [_ E2].
  apply span_split in E4 as [_ E4]. auto.
Qed.

Lemma pattern_fields t o r :
  pattern t = Some (o, r) ->
  nonempty o = true /\ slash_free o = true /\ slash_free r = true.
Proof.
  unfold pattern. destruct (startswith t "github.com/"); [|discriminate].
  destruct (span notslash (drop 11 t)) as [owner r1] eqn:E1.
  destruct (span notslash (drop 1 r1)) as [repo r2] eqn:E2.
  destruct (nonempty owner && startswith r1 "/" && nonempty repo) eqn:C; [|discriminate].
  intros [= <- <-]. repeat (apply andb_prop in C as [C ?]).
  apply span_split in E1 as [_ E1]. apply span_split in E2 as [_ E2]. auto.
Qed.

(** X4. Whatever reference [parse_github_url] accepts, the owner it
    returns is non-empty and has no slash, the repository has no slash, and
    the sub-path has no line feed. *)
Theorem parse_github_url_parts (url owner repo sub : string) :
  parse_github_url url = Returned (owner, repo, sub) ->
  nonempty owner = true /\ slash_free owner = true
  /\ slash_free repo = true /\ one_line sub = true.
Proof.
  unfold parse_github_url.
  destruct (search tree_pattern (rstrip_char url "/")) as [[[o r] s]|] eqn:Et.
  - intros [= <- <- <-]. apply search_Some in Et as (i & _ & Et & _).
    apply tree_pattern_fields in Et as (Ho & So & Sr & Ss).
    repeat split; auto. apply replace_git_all, Sr.
  - destruct (search pattern (rstrip_char url "/")) as [[o r]|] eqn:Ep; [|discriminate].
    intros [= <- <- <-]. apply search_Some in Ep as (i & _ & Ep & _).
    apply pattern_fields in Ep as (Ho & So & Sr).
    repeat split; auto. apply replace_git_all, Sr.
Qed.

End LocatorMore.

(** The round trip on a bare reference. *)
Lemma parse_github_url_bare_round_trip_witness :
  Locator.parse_github_url "https://github.com/octocat/leetcode"
  = Py.Returned ("octocat", Py.replace "leetcode" ".git" "", "").
Proof.
  apply (parse_github_url_bare_round_trip "octocat" "leetcode"); reflexivity.
Defined.

(** The parts of a reference whose repository is named [.git]: the owner
    is there, the repository name is empty. *)
Lemma parse_github_url_parts_witness :
  Py.nonempty "octocat" = true /\ Stated.slash_free "octocat" = true
  /\ Stated.slash_free "" = true /\ Stated.one_line "" = true.
Proof.
  apply (parse_github_url_parts "https://github.com/octocat/.git" "octocat" "" "").
  vm_compute. reflexivity.
Defined.

(** The round trip on a tree-style reference. *)
Lemma parse_github_url_tree_round_trip_witness :
  Locator.parse_github_url "https://github.com/octocat/repo/tree/main/LeetCode-75"
  = Py.Returned ("octocat", Py.replace "repo" ".git" "", "LeetCode-75").
Proof.
  apply (parse_github_url_tree_round_trip "octocat" "repo" "main" "LeetCode-75");
    reflexivity.
Defined.

(** ** Classifier and TreeCrawler, continued *)

Section ClassifierMore.
Import Py Classifier Crawler Stated.

Ltac by_extension filename :=
  unfold is_code_file, get_language, extensions, ext_map;
  cbn [existsb first_language];
  repeat match goal with
         | |- context [endswith filename ?e] =>
             destruct (endswith filename e);
             [ first [ split; [intros _; discriminate|reflexivity]
                     | intros _; discriminate ]
             | cbn [orb] ]
         end.

Lemma code_file_has_language filename :
  is_code_file filename = true -> get_language filename <> "Unknown".
Proof. by_extension filename. discriminate. Qed.

(** X5. A file name passes [is_code_file] exactly when [get_language]
    knows its language: the two tables list the same extensions. *)
Theorem is_code_file_iff_language (filename : string) :
  is_code_file filename = true <-> get_language filename <> "Unknown".
Proof.
  by_extension filename. split; [discriminate|]. intros H. contradiction H. reflexivity.
Qed.

(** X6. [extract_problem_number] returns "Unknown" or a run of one to four
    digits, whatever the file name and the path. *)
Theorem extract_problem_number_format (filename path : string) :
  extract_problem_number filename path = "Unknown"
  \/ (digits (extract_problem_number filename path) = true
      /\ 1 <= String.length (extract_problem_number filename path) <= 4).
Proof.
  unfold extract_problem_number.
  destruct (search digits_1_4 filename) as [d|] eqn:Ef.
  - right. apply search_digits_iff in Ef as (pre & rest & _ & _ & Hd & Hlen & _). auto.
  - destruct (search problem_pattern path) as [d|] eqn:Ep; [|left; reflexivity].
    right. apply search_Some in Ep as (i & Hi & Hm & _).
    assert (Hat : problem_at path i d) by (apply problem_pattern_iff; auto).
    destruct Hat as (pre & sep & rest & _ & _ & _ & Hd & Hlen). split; [exact Hd|lia].
Qed.

Lemma scan_item_Forall_code http_get (P : SourceFile -> Prop) :
  (forall name path download_url,
      is_code_file name = true ->
      P {| filename := name; path := path;
           code := get_file_content http_get download_url;
           language := get_language name;
           problem_number := extract_problem_number name path |}) ->
  forall it, Forall P (scan_item http_get it).
Proof.
  intros HP. induction it as [type name path download_url listing IH] using item_nested_ind.
  simpl. destruct (String.eqb type "file" && is_code_file name) eqn:E.
  - apply andb_prop in E as [_ E]. destruct (excluded path); [constructor|].
    destruct (nonempty (get_file_content http_get download_url)); constructor; auto.
  - destruct (String.eqb type "dir"); [|constructor].
    apply Forall_flat_map, IH.
Qed.

(** X7. Every source file the crawl yields has a recognized extension and
    a known language, which is the language of its name, and its problem
    number is the one extracted from its name and path. *)
Theorem scan_repository_classified
    (http_get : string -> response) (contents : list item) :
  Forall (fun sf =>
            is_code_file (filename sf) = true
            /\ language sf = get_language (filename sf)
            /\ language sf <> "Unknown"
            /\ problem_number sf = extract_problem_number (filename sf) (path sf))
         (scan_repository http_get contents).
Proof.
  apply Forall_flat_map, List.Forall_forall. intros it _.
  apply scan_item_Forall_code. intros name path download_url Hc. simpl.
  repeat split; auto. apply code_file_has_language, Hc.
Qed.

End ClassifierMore.

(** ** BatchAnnotator, continued *)

Section AnnotatorMore.
Import Py Crawler Annotator Stated.

Variable json_loads : string -> option json.
Variable call_gemini_api : nat -> string -> api_result.

Lemma merge_fields_entry d p : merged_entry d p (JObj (merge_fields d p)).
Proof.
  exists (merge_fields d p). split; [reflexivity|]. unfold merge_fields.
  rewrite !lookup_insert_ne by discriminate.
  destruct (d !! "language") as [l|] eqn:E.
  - repeat split; simplify_map_eq; auto.
    intros key H1 H2 H3. rewrite !lookup_insert_ne by congruence. reflexivity.
  - repeat split; simplify_map_eq; auto.
    intros key H1 H2 H3. rewrite !lookup_insert_ne by congruence. reflexivity.
Qed.

Lemma merge_originals_lookup analyzed originals merged :
  merge_originals analyzed originals = Some merged ->
  length merged = length analyzed
  /\ forall i record,
       merged !! i = Some record ->
       (exists d p, analyzed !! i = Some (JObj d) /\ originals !! i = Some p
                    /\ record = JObj (merge_fields d p))
       \/ (originals !! i = None /\ analyzed !! i = Some record).
Proof.
  revert originals merged.
  induction analyzed as [|a analyzed IH]; intros originals merged Hm.
  - simpl in Hm. injection Hm as <-. split; [reflexivity|].
    intros i record H. rewrite lookup_nil in H. discriminate.
  - destruct originals as [|p originals].
    + assert (merged = a :: analyzed) as -> by (destruct a; simpl in Hm; congruence).
      split; [reflexivity|]. intros i record H. right. split; [apply lookup_nil|exact H].
    + destruct a as [| | | | | |d]; simpl in Hm; try discriminate.
      destruct (merge_originals analyzed originals) as [rest|] eqn:E; [|discriminate].
      injection Hm as <-. destruct (IH originals rest E) as [Hlen Hall].
      split; [simpl; congruence|]. intros [|i] record H; simpl in H.
      * injection H as <-. left. exists d, p. auto.
      * apply (Hall i record H).
Qed.

Lemma merge_originals_rejects analyzed originals i x :
  analyzed !! i = Some x -> i < length originals -> is_object x = false ->
  merge_originals analyzed originals = None.
Proof.
  revert originals i. induction analyzed as [|a analyzed IH]; intros originals i Hx Hi Ho.
  - rewrite lookup_nil in Hx. discriminate.
  - destruct originals as [|p originals]; [simpl in Hi; lia|].
    destruct i as [|i]; simpl in Hx.
    + injection Hx as ->. destruct x; try reflexivity. discriminate.
    + simpl in Hi. destruct a; try reflexivity. simpl.
      rewrite (IH originals i Hx ltac:(lia) Ho). reflexivity.
Qed.

(** X8. Every entry [parse_gemini_response] returns comes from the array
    decoded out of the reply, which has the same length as the list returned:
    an entry at an index the batch has is the decoded object at that index
    with code and path set from the file at that index, the language kept
    when the reply gave one and taken from the file otherwise, and every
    other key as decoded; an entry at a later index is the decoded entry,
    untouched. *)
Theorem parse_gemini_response_entries
    (response : string) (batch : list SourceFile) (i : nat) (record : json) :
  parse_gemini_response json_loads response batch !! i = Some record ->
  exists text analyzed,
    json_str response = Some text
    /\ json_loads text = Some (JArr analyzed)
    /\ length (parse_gemini_response json_loads response batch) = length analyzed
    /\ ((exists d p, analyzed !! i = Some (JObj d) /\ batch !! i = Some p
                     /\ merged_entry d p record)
        \/ (batch !! i = None /\ analyzed !! i = Some record)).
Proof.
  unfold parse_gemini_response.
  destruct (json_str response) as [text|]; [|rewrite lookup_nil; discriminate].
  destruct (json_loads text) as [[| | | | |analyzed|]|] eqn:El;
    try (rewrite lookup_nil; discriminate).
  destruct (merge_originals analyzed batch) as [merged|] eqn:E;
    [|rewrite lookup_nil; discriminate].
  intros H. destruct (merge_originals_lookup _ _ _ E) as [Hlen Hall].
  exists text, analyzed. split; [reflexivity|]. split; [exact El|].
  split; [exact Hlen|].
  destruct (Hall i record H) as [(d & p & Ha & Hb & ->)|[Hb Ha]].
  - left. exists d, p. repeat split; auto. apply merge_fields_entry.
  - right. auto.
Qed.

(** X9. One decoded entry that is not an object, at an index the batch
    has, makes [parse_gemini_response] drop the whole reply. *)
Theorem parse_gemini_response_all_or_nothing
    (response text : string) (batch : list SourceFile) (analyzed : list json)
    (i : nat) (x : json) :
  json_str response = Some text ->
  json_loads text = Some (JArr analyzed) ->
  analyzed !! i = Some x -> i < length batch -> is_object x = false ->
  parse_gemini_response json_loads response batch = [].
Proof.
  intros Ht Hl Hx Hi Ho. unfold parse_gemini_response.
  rewrite Ht, Hl, (merge_originals_rejects analyzed batch i x Hx Hi Ho). reflexivity.
Qed.

Lemma flat_map_map_fn {A B C} (f : B -> C) (g : A -> list B) l :
  flat_map (fun x => map f (g x)) l = map f (flat_map g l).
Proof.
  induction l as [|x l IH]; simpl; [reflexivity|]. rewrite IH, map_app. reflexivity.
Qed.

(** The records when no generation call succeeds. *)
Lemma analyze_without_generation problems :
  (forall k prompt, call_gemini_api k prompt = ApiError) ->
  fst (analyze_with_gemini json_loads call_gemini_api problems)
  = map failed_record problems.
Proof.
  intros H. rewrite analyze_records.
  rewrite (flat_map_ext_in _
             (fun k => map failed_record (batch_at problems (k * 3)))).
  - rewrite flat_map_map_fn, batches_cover; [reflexivity|apply ceil_3_bounds].
  - intros k _. unfold annotate_batch, batch_records. rewrite H. reflexivity.
Qed.

(** X10. When every generation call raises, [analyze_with_gemini] returns
    the failed record of each input file, in order. *)
Theorem analyze_with_gemini_all_calls_fail (problems : list SourceFile) :
  (forall k prompt, call_gemini_api k prompt = ApiError) ->
  fst (analyze_with_gemini json_loads call_gemini_api problems)
  = map failed_record problems.
Proof.
  intros H. rewrite analyze_records.
  rewrite (flat_map_ext_in _
             (fun k => map failed_record (batch_at problems (k * 3)))).
  - rewrite flat_map_map_fn. f_equal. apply batches_cover, ceil_3_bounds.
  - intros k _. unfold annotate_batch, batch_records. rewrite H. reflexivity.
Qed.

Lemma annotate_batch_nonempty i p batch :
  annotate_batch json_loads call_gemini_api i (p :: batch) <> [].
Proof.
  unfold annotate_batch, batch_records.
  destruct (call_gemini_api (i / batch_size) (create_gemini_prompt (p :: batch)));
    [|discriminate].
  destruct (parse_gemini_response json_loads text (p :: batch)); discriminate.
Qed.

(** X11. [analyze_with_gemini] returns an empty list for an empty input
    only; for an empty input it makes no call and no sleep. *)
Theorem analyze_with_gemini_empty (problems : list SourceFile) :
  (fst (analyze_with_gemini json_loads call_gemini_api problems) = [] <-> problems = [])
  /\ analyze_with_gemini json_loads call_gemini_api [] = ([], []).
Proof.
  split; [|reflexivity]. split.
  - destruct problems as [|p problems]; [reflexivity|]. intros H. exfalso.
    rewrite analyze_records in H.
    pose proof (ceil_3_bounds (length (p :: problems))) as B.
    destruct ((length (p :: problems) + 2) / 3) as [|m] eqn:Em;
      [simpl in B; lia|].
    cbn [seq flat_map] in H. apply app_eq_nil in H as [H _].
    revert H. apply annotate_batch_nonempty.
  - intros ->. reflexivity.
Qed.

End AnnotatorMore.

(** The entries of a reply of an object and a number, for one file. *)
Lemma parse_gemini_response_entries_witness :
  exists text analyzed,
    Annotator.json_str "[{}, 5]" = Some text
    /\ Samples.json_loads text = Some (Annotator.JArr analyzed)
    /\ length (Annotator.parse_gemini_response Samples.json_loads "[{}, 5]" Samples.one_file)
       = length analyzed
    /\ ((exists d p, analyzed !! 1 = Some (Annotator.JObj d)
                     /\ Samples.one_file !! 1 = Some p
                     /\ Stated.merged_entry d p (Annotator.JInt 5))
        \/ (Samples.one_file !! 1 = None /\ analyzed !! 1 = Some (Annotator.JInt 5))).
Proof.
  apply (parse_gemini_response_entries Samples.json_loads "[{}, 5]" Samples.one_file 1
           (Annotator.JInt 5)).
  vm_compute. reflexivity.
Defined.

(** The same reply for two files: the number stands where the second file
    is, and nothing is kept. *)
Lemma parse_gemini_response_all_or_nothing_witness :
  Annotator.parse_gemini_response Samples.json_loads "[{}, 5]" Samples.two_files = [].
Proof.
  apply (parse_gemini_response_all_or_nothing Samples.json_loads "[{}, 5]" "[{}, 5]"
           Samples.two_files [Annotator.JObj ∅; Annotator.JInt 5] 1 (Annotator.JInt 5));
    try reflexivity. simpl. lia.
Defined.

(** Two files and an endpoint that always raises. *)
Lemma analyze_with_gemini_all_calls_fail_witness :
  fst (Annotator.analyze_with_gemini Samples.json_loads Samples.always_raises
         Samples.two_files)
  = map Annotator.failed_record Samples.two_files.
Proof.
  apply (analyze_with_gemini_all_calls_fail Samples.json_loads Samples.always_raises
           Samples.two_files).
  reflexivity.
Defined.

(** ** Upserter, continued *)

Section UpserterMore.
Import Py Annotator Upserter Stated.

Variable bind : params -> bound.

Lemma same_identity_refl r : same_identity r r.
Proof. repeat split. Qed.

Lemma same_identity_trans a b c :
  same_identity a b -> same_identity b c -> same_identity a c.
Proof.
  unfold same_identity. intros (A1 & A2 & A3 & A4 & A5) (B1 & B2 & B3 & B4 & B5).
  repeat split; congruence.
Qed.

(** The statement moves no row and changes no row's identity. *)
Lemma upsert_frame v now table i r :
  table !! i = Some r ->
  exists r', fst (upsert v now table) !! i = Some r' /\ same_identity r r'.
Proof.
  revert i. induction table as [|r0 table IH]; intros i Hi.
  - rewrite lookup_nil in Hi. discriminate.
  - rewrite upsert_cons. destruct (conflicts (columns r0) v); destruct i as [|i]; simpl in *.
    + injection Hi as ->. exists (do_update r v). split; [reflexivity|]. repeat split.
    + exists r. split; [exact Hi|apply same_identity_refl].
    + exists r. split; [exact Hi|apply same_identity_refl].
    + apply IH, Hi.
Qed.

(** The statement adds a row exactly when it reports an insert. *)
Lemma upsert_length v now table :
  length (fst (upsert v now table))
  = length table + (if snd (upsert v now table) then 1 else 0).
Proof.
  induction table as [|r table IH]; [reflexivity|].
  rewrite upsert_cons. destruct (conflicts (columns r) v); simpl; lia.
Qed.

(** After the statement some row has the key and the data of its row. *)
Lemma upsert_holds v now table :
  key_not_null v = true ->
  exists i r, fst (upsert v now table) !! i = Some r
              /\ conflicts (columns r) v = true /\ holds_data r v.
Proof.
  intros Hk. induction table as [|r0 table (i & r & Hi & Hc & Hd)].
  - exists 0, {| columns := v; created_at := now |}. simpl.
    split; [reflexivity|]. split; [apply conflicts_self, Hk|]. repeat split.
  - rewrite upsert_cons. destruct (conflicts (columns r0) v) eqn:E.
    + exists 0, (do_update r0 v). simpl. split; [reflexivity|].
      split; [exact E|]. repeat split.
    + exists (S i), r. simpl. auto.
Qed.

Section Pass.
Variables (user_email : option string) (now : nat).

Lemma store_one_step st sol :
  let st' := store_one bind user_email now st sol in
  inserted st' + updated st' <= inserted st + updated st + 1
  /\ length (rows st') + inserted st = length (rows st) + inserted st'
  /\ (forall i r, rows st !! i = Some r ->
                  exists r', rows st' !! i = Some r' /\ same_identity r r').
Proof.
  assert (K : forall i r, rows st !! i = Some r ->
                          exists r', rows st !! i = Some r' /\ same_identity r r').
  { intros i r H. exists r. split; [exact H|apply same_identity_refl]. }
  unfold store_one. destruct (statement_params sol user_email) as [ps|];
    [|cbv zeta; split; [lia|split; [lia|exact K]]].
  destruct (aborted st); [cbv zeta; split; [lia|split; [lia|exact K]]|].
  destruct (bind ps) as [v| |]; try (cbv zeta; simpl; split; [lia|split; [lia|exact K]]).
  pose proof (upsert_length v now (rows st)) as L.
  pose proof (upsert_frame v now (rows st)) as F.
  destruct (upsert v now (rows st)) as [t []]; simpl in *;
    (split; [lia|split; [lia|exact F]]).
Qed.

(** What a pass keeps, whatever the records and whatever becomes of their
    statements. *)
Lemma store_pass_frame solutions st :
  let st' := fold_left (store_one bind user_email now) solutions st in
  inserted st' + updated st' <= inserted st + updated st + length solutions
  /\ length (rows st') + inserted st = length (rows st) + inserted st'
  /\ (forall i r, rows st !! i = Some r ->
                  exists r', rows st' !! i = Some r' /\ same_identity r r').
Proof.
  revert st. induction solutions as [|sol solutions IH]; intros st.
  - simpl. split; [lia|]. split; [lia|]. intros i r H. exists r.
    split; [exact H|apply same_identity_refl].
  - cbn [fold_left]. destruct (store_one_step st sol) as (A1 & A2 & A3).
    destruct (IH (store_one bind user_email now st sol)) as (B1 & B2 & B3).
    cbv zeta. split; [simpl; lia|]. split; [lia|].
    intros i r H. destruct (A3 i r H) as (r1 & H1 & S1).
    destruct (B3 i r1 H1) as (r2 & H2 & S2). exists r2.
    split; [exact H2|apply (same_identity_trans _ _ _ S1 S2)].
Qed.

(** A pass in which the server refuses nothing stays open. *)
Lemma store_pass_open solutions st :
  aborted st = false -> never_refused bind user_email solutions ->
  aborted (fold_left (store_one bind user_email now) solutions st) = false.
Proof.
  intros Ha H. revert st Ha. induction H as [|sol solutions Hsol _ IH]; intros st Ha.
  - exact Ha.
  - cbn [fold_left]. apply IH. unfold store_one.
    destruct (statement_params sol user_email) as [ps|]; [|exact Ha].
    rewrite Ha. specialize (Hsol ps eq_refl).
    destruct (bind ps) as [v| |]; [|exact Ha|contradiction].
    destruct (upsert v now (rows st)) as [t []]; reflexivity.
Qed.

End Pass.

(** X12. The counts [store_in_database] prints add up to at most the
    number of records; the table afterwards is the table before with one
    more row per insert counted, or, when a statement failed on the server
    and the commit rolled the pass back, the table before, whatever was
    counted. *)
Theorem store_in_database_counts
    (db : session) (now : nat) (solutions : list json) (owner : option string)
    (table table' : list row) (n u : nat) :
  store_in_database bind db now solutions owner table = (Stored n u, table') ->
  n + u <= length solutions
  /\ (table' = table \/ length table' = length table + n).
Proof.
  unfold store_in_database. destruct (connects db); [|discriminate].
  destruct (commits db); [|discriminate].
  destruct (store_pass_frame owner now solutions
              {| rows := table; inserted := 0; updated := 0; aborted := false |})
    as (A1 & A2 & _).
  cbv zeta in A1, A2. simpl in A1, A2.
  intros H. assert (Hn : inserted (fold_left (store_one bind owner now) solutions
                           {| rows := table; inserted := 0; updated := 0; aborted := false |})
                         = n) by congruence.
  assert (Hu : updated (fold_left (store_one bind owner now) solutions
                          {| rows := table; inserted := 0; updated := 0; aborted := false |})
                        = u) by congruence.
  split; [lia|].
  destruct (aborted _); [left; congruence|right].
  assert (Ht : rows (fold_left (store_one bind owner now) solutions
                       {| rows := table; inserted := 0; updated := 0; aborted := false |})
               = table') by congruence.
  rewrite <- Ht. lia.
Qed.

(** X13. [store_in_database] deletes no row and moves none: a row of the
    table is at the same place afterwards, with its four key columns and its
    creation time as they were, however the call ends. *)
Theorem store_in_database_keeps_rows
    (db : session) (now : nat) (solutions : list json) (owner : option string)
    (table : list row) (i : nat) (r : row) :
  table !! i = Some r ->
  exists r',
    snd (store_in_database bind db now solutions owner table) !! i = Some r'
    /\ same_identity r r'.
Proof.
  intros Hi. unfold store_in_database.
  destruct (connects db);
    [|exists r; split; [exact Hi|apply same_identity_refl]].
  destruct (commits db);
    [|exists r; split; [exact Hi|apply same_identity_refl]].
  cbv zeta. cbn [snd]. destruct (aborted _);
    [exists r; split; [exact Hi|apply same_identity_refl]|].
  destruct (store_pass_frame owner now solutions
              {| rows := table; inserted := 0; updated := 0; aborted := false |})
    as (_ & _ & A3).
  apply (A3 i r Hi).
Qed.

(** X14. The last record of a pass can be read back: when the database
    connects and commits, the server refuses none of the earlier statements,
    and the last record is one the statement goes through with and has its
    four key columns set, [store_in_database] ends with its counts, the table
    has one more row per insert counted, and some row of the table has the
    record's key and its title, difficulty, complexities, algorithms, data
    structures, explanation, tags and code. *)
Theorem store_in_database_read_back
    (db : session) (now : nat) (earlier : list json) (sol : json)
    (owner : option string) (v : solution) (table : list row) :
  connects db = true -> commits db = true ->
  never_refused bind owner earlier ->
  accepted bind owner sol v -> key_not_null v = true ->
  exists n u table' i r,
    store_in_database bind db now (earlier ++ [sol]) owner table = (Stored n u, table')
    /\ length table' = length table + n
    /\ table' !! i = Some r
    /\ conflicts (columns r) v = true
    /\ holds_data r v.
Proof.
  intros Hc Hm Hearlier Hacc Hk. unfold store_in_database. rewrite Hc, Hm.
  set (st0 := {| rows := table; inserted := 0; updated := 0; aborted := false |}).
  cbv zeta. rewrite fold_left_app. cbn [fold_left].
  pose proof (store_pass_open owner now earlier st0 eq_refl Hearlier) as Ha.
  destruct (store_pass_frame owner now earlier st0) as (_ & L1 & _). cbv zeta in L1.
  set (st1 := fold_left (store_one bind owner now) earlier st0) in *.
  rewrite (store_one_accepted bind owner now st1 sol v Ha Hacc).
  destruct (upsert_holds v now (rows st1) Hk) as (i & r & Hi & Hcf & Hd).
  pose proof (upsert_length v now (rows st1)) as L2.
  cbn [aborted rows inserted updated].
  eexists _, _, _, i, r. split; [reflexivity|]. split; [|auto].
  simpl in L1. destruct (snd (upsert v now (rows st1))); lia.
Qed.

End UpserterMore.

(** The counts of storing one record in the table that has its key. *)
Lemma store_in_database_counts_witness :
  0 + 1 <= length [Samples.record_of "second"]
  /\ ([ {| Upserter.columns := Samples.solution_of "second"; Upserter.created_at := 3 |} ]
      = Samples.stored_once
      \/ length [ {| Upserter.columns := Samples.solution_of "second";
                     Upserter.created_at := 3 |} ]
         = length Samples.stored_once + 0).
Proof.
  apply (store_in_database_counts Samples.bind Samples.online 5
           [Samples.record_of "second"] (Some "u1")).
  vm_compute. reflexivity.
Defined.

(** The stored row stays where it is when two records are stored, one of
    them under another key. *)
Lemma store_in_database_keeps_rows_witness :
  exists r',
    snd (Upserter.store_in_database Samples.bind Samples.online 5
           [Samples.record_of "second"; Annotator.JNull] (Some "u2") Samples.stored_once)
      !! 0 = Some r'
    /\ Stated.same_identity
         {| Upserter.columns := Samples.solution_of "first"; Upserter.created_at := 3 |} r'.
Proof.
  apply (store_in_database_keeps_rows Samples.bind Samples.online 5
           [Samples.record_of "second"; Annotator.JNull] (Some "u2") Samples.stored_once 0).
  reflexivity.
Defined.

(** A record that is no dict is skipped, and the record after it is read
    back. *)
Lemma store_in_database_read_back_witness :
  exists n u table' i r,
    Upserter.store_in_database Samples.bind Samples.online 5
      ([Annotator.JNull] ++ [Samples.record_of "second"]) (Some "u1") Samples.stored_once
    = (Upserter.Stored n u, table')
    /\ length table' = length Samples.stored_once + n
    /\ table' !! i = Some r
    /\ Upserter.conflicts (Upserter.columns r) (Samples.solution_of "second") = true
    /\ Stated.holds_data r (Samples.solution_of "second").
Proof.
  apply (store_in_database_read_back Samples.bind Samples.online 5 [Annotator.JNull]
           (Samples.record_of "second") (Some "u1") (Samples.solution_of "second")
           Samples.stored_once).
  - reflexivity.
  - reflexivity.
  - constructor; [|constructor]. intros ps H. discriminate H.
  - eexists. split; [reflexivity|]. vm_compute. reflexivity.
  - reflexivity.
Defined.

(** ** PipelineOrchestrator, continued *)

Section OrchestratorMore.
Import Py Orchestrator Stated.

(** X15. A run that ends before the summary stage leaves the solutions
    table as it found it: whether the connection test, the reference, the
    crawl, the database set-up or the storage stopped it, nothing was
    written. *)
Theorem process_repository_early_exit
    (w : world) (github_url : string) (owner : option string) (table : list Upserter.row) :
  ended_early (fst (process_repository w github_url owner table)) = true ->
  snd (process_repository w github_url owner table) = table.
Proof.
  unfold process_repository. destruct (test_connection w); [|reflexivity].
  destruct (Locator.parse_github_url github_url) as [[[o r] p]|message]; [|reflexivity].
  destruct (Crawler.scan_repository (http_get w) (get_repo_contents w o r p))
    as [|f problems]; [reflexivity|].
  destruct (setup_database w); [|reflexivity].
  unfold Upserter.store_in_database.
  destruct (Upserter.connects (store_session w)); [|reflexivity].
  destruct (Upserter.commits (store_session w)); [|reflexivity].
  cbv zeta. destruct (summary_languages _); discriminate.
Qed.

Lemma same_element_str s x :
  same_element (Annotator.JStr s) x = true <-> x = Annotator.JStr s.
Proof.
  destruct x; simpl; split; try discriminate.
  - intros H. apply String.eqb_eq in H. congruence.
  - intros [= ->]. apply String.eqb_refl.
Qed.

Lemma NoDup_snoc {A} (x : A) l : List.NoDup l -> ~ In x l -> List.NoDup (l ++ [x]).
Proof.
  induction 1 as [|y l Hy Hl IH]; intros Hx; simpl.
  - constructor; [intros []|constructor].
  - constructor.
    + rewrite in_app_iff. intros [H|[H|[]]]; [contradiction|].
      apply Hx. left. symmetry. exact H.
    + apply IH. intros H. apply Hx. right. exact H.
Qed.

(** Adding a string to a set. *)
Lemma set_add_str s elements :
  List.NoDup elements ->
  List.NoDup (set_add (Annotator.JStr s) elements)
  /\ forall v, In v (set_add (Annotator.JStr s) elements)
               <-> In v elements \/ v = Annotator.JStr s.
Proof.
  intros Hn. unfold set_add.
  destruct (existsb (same_element (Annotator.JStr s)) elements) eqn:E.
  - apply existsb_exists in E as (x & Hx & Hs). apply same_element_str in Hs. subst x.
    split; [exact Hn|]. intros v. split; [auto|]. intros [H| ->]; assumption.
  - assert (Hx : ~ In (Annotator.JStr s) elements).
    { intros H. assert (existsb (same_element (Annotator.JStr s)) elements = true);
        [|congruence].
      apply existsb_exists. exists (Annotator.JStr s). split; [exact H|].
      apply same_element_str. reflexivity. }
    split; [apply NoDup_snoc; assumption|].
    intros v. rewrite in_app_iff. simpl. split.
    + intros [H|[H|[]]]; auto.
    + intros [H| ->]; auto.
Qed.

(** The set of languages of the records of a run without generation. *)
Lemma summary_languages_failed problems elements :
  List.NoDup elements ->
  exists languages,
    summary_languages_from elements (map Annotator.failed_record problems) = Some languages
    /\ List.NoDup languages
    /\ forall v, In v languages
                 <-> In v elements
                     \/ exists f, In f problems /\ v = Annotator.JStr (Crawler.language f).
Proof.
  revert elements. induction problems as [|p problems IH]; intros elements Hn.
  - exists elements. split; [reflexivity|]. split; [exact Hn|].
    intros v. split; [auto|]. intros [H|(f & [] & _)]. exact H.
  - cbn [map]. unfold Annotator.failed_record at 1, Annotator.default_record.
    cbn [summary_languages_from].
    match goal with
    | |- context [Upserter.dict_get ?d "language" ?x] =>
        change (Upserter.dict_get d "language" x) with (Annotator.JStr (Crawler.language p))
    end.
    cbn [hashable].
    destruct (set_add_str (Crawler.language p) elements Hn) as [Hn' Hin].
    destruct (IH _ Hn') as (languages & E & Hd & Hl).
    exists languages. split; [exact E|]. split; [exact Hd|].
    intros v. rewrite Hl, Hin. split.
    + intros [[H| ->]|(f & Hf & ->)]; [auto| |].
      * right. exists p. split; [left; reflexivity|reflexivity].
      * right. exists f. split; [right; exact Hf|reflexivity].
    + intros [H|(f & [<-|Hf] & ->)]; [auto|auto|]. right. exists f. auto.
Qed.

(** X16. A run whose every generation call raises, and which meets the
    connection test, a reference that parses, a crawl with at least one
    file, the database set-up and a storage that connects and commits, ends
    with the summary: the total is the number of files crawled, and the set
    of languages of the summary holds, once each, the languages the
    classifier gave the files, and nothing else. *)
Theorem process_repository_generation_down
    (w : world) (github_url : string) (owner : option string) (table : list Upserter.row)
    (o r p : string) :
  test_connection w = true ->
  Locator.parse_github_url github_url = Returned (o, r, p) ->
  Crawler.scan_repository (http_get w) (get_repo_contents w o r p) <> [] ->
  (forall k prompt, call_gemini_api w k prompt = Annotator.ApiError) ->
  setup_database w = true ->
  Upserter.connects (store_session w) = true ->
  Upserter.commits (store_session w) = true ->
  let problems := Crawler.scan_repository (http_get w) (get_repo_contents w o r p) in
  exists languages,
    fst (process_repository w github_url owner table)
    = ProcessComplete (length problems) languages
    /\ List.NoDup languages
    /\ forall v, In v languages
                 <-> exists f, In f problems /\ v = Annotator.JStr (Crawler.language f).
Proof.
  intros Ht Hp Hs Hg Hd Hc Hm problems.
  destruct (summary_languages_failed problems [] (List.NoDup_nil _))
    as (languages & E & Hn & Hl).
  exists languages. split; [|split; [exact Hn|]].
  - unfold process_repository. rewrite Ht, Hp. fold problems. fold problems in Hs.
    destruct problems as [|f files] eqn:Ep; [contradiction Hs; reflexivity|].
    rewrite Hd, (analyze_without_generation (json_loads w) (call_gemini_api w) _ Hg).
    unfold Upserter.store_in_database. rewrite Hc, Hm. cbv zeta.
    unfold summary_languages. rewrite E, length_map. reflexivity.
  - intros v. rewrite Hl. split; [intros [[]|H]; exact H|auto].
Qed.

End OrchestratorMore.

(** A run that cannot store ends early and leaves the table. *)
Lemma process_repository_early_exit_witness :
  snd (Orchestrator.process_repository Samples.world_without_storage
         Samples.repository_url (Some "u1") Samples.stored_once)
  = Samples.stored_once.
Proof.
  apply (process_repository_early_exit Samples.world_without_storage
           Samples.repository_url (Some "u1") Samples.stored_once).
  vm_compute. reflexivity.
Defined.

(** The scenario's tree with the generation endpoint down. *)
Lemma process_repository_generation_down_witness :
  exists languages,
    fst (Orchestrator.process_repository Samples.world_without_generation
           Samples.repository_url (Some "u1") [])
    = Orchestrator.ProcessComplete
        (length (Crawler.scan_repository Samples.serve_all Samples.scenario_tree))
        languages
    /\ List.NoDup languages
    /\ forall v,
         In v languages
         <-> exists f,
               In f (Crawler.scan_repository Samples.serve_all Samples.scenario_tree)
               /\ v = Annotator.JStr (Crawler.language f).
Proof.
  apply (process_repository_generation_down Samples.world_without_generation
           Samples.repository_url (Some "u1") [] "octocat" "leetcode" "");
    try reflexivity.
  vm_compute. discriminate.
Defined.

(** ** References [parse_github_url] refuses *)

Section LocatorErrors.
Import Py Locator Stated.
Local Arguments String.append !_ _ : simpl nomatch.

Lemma contains_occurs sub s :
  contains sub s = true -> exists pre post, s = pre +:+ sub +:+ post.
Proof.
  induction s as [|c s IH]; cbn [contains]; intros H.
  - rewrite orb_false_r in H. apply startswith_split in H.
    exists "", (drop (String.length sub) ""). exact H.
  - apply orb_prop in H as [H|H].
    + apply startswith_split in H. exists "", (drop (String.length sub) (String c s)).
      exact H.
    + destruct (IH H) as (pre & post & ->). exists (String c pre), post. reflexivity.
Qed.

Lemma contains_prefix sub a b : contains sub (a +:+ b) = false -> contains sub a = false.
Proof.
  intros H. destruct (contains sub a) eqn:E; [|reflexivity].
  destruct (contains_occurs _ _ E) as (pre & post & ->).
  rewrite !app_assoc_str, contains_app in H. discriminate.
Qed.

Lemma rstrip_by_prefix p s : exists t, s = rstrip_by p s +:+ t.
Proof.
  induction s as [|c s (t & IH)]; [exists ""; reflexivity|]. simpl.
  destruct (rstrip_by p s) as [|d r] eqn:E.
  - destruct (p c); [exists (String c s); reflexivity|].
    exists s. reflexivity.
  - exists t. rewrite ?app_cons. rewrite ?app_cons in IH. congruence.
Qed.

(** Nothing starts at any offset of a text in which it does not occur. *)
Lemma startswith_absent sub s i :
  contains sub s = false -> startswith (drop i s) sub = false.
Proof.
  intros H. destruct (startswith (drop i s) sub) eqn:E; [|reflexivity].
  apply startswith_split in E. rewrite <- (take_drop_str i s), E, contains_app in H.
  discriminate.
Qed.

(** X17. A reference in which [github.com/] does not occur is refused:
    [parse_github_url] raises its [ValueError]. *)
Theorem parse_github_url_without_host (url : string) :
  contains "github.com/" url = false ->
  parse_github_url url = Raised "Invalid GitHub URL format".
Proof.
  intros H. unfold parse_github_url.
  destruct (rstrip_by_prefix (Ascii.eqb "/") url) as (t & E).
  fold (rstrip_char url "/") in E. rewrite E in H. apply contains_prefix in H.
  assert (search tree_pattern (rstrip_char url "/") = None) as ->.
  { apply search_None. intros i _. unfold tree_pattern.
    rewrite (startswith_absent _ _ i H). reflexivity. }
  assert (search pattern (rstrip_char url "/") = None) as ->.
  { apply search_None. intros i _. unfold pattern.
    rewrite (startswith_absent _ _ i H). reflexivity. }
  reflexivity.
Qed.

(** A match of the plain pattern takes at least two slashes. *)
Lemma pattern_slashes t x : pattern t = Some x -> 2 <= count is_slash t.
Proof.
  unfold pattern. destruct (startswith t "github.com/") eqn:Hg; [|discriminate].
  apply startswith_split in Hg. change (String.length "github.com/") with 11 in Hg.
  destruct (span notslash (drop 11 t)) as [owner r1] eqn:E1.
  destruct (span notslash (drop 1 r1)) as [repo r2] eqn:E2.
  destruct (nonempty owner && startswith r1 "/" && nonempty repo) eqn:C; [|discriminate].
  intros _. repeat (apply andb_prop in C as [C ?]).
  apply span_split in E1 as [E1 _].
  repeat match goal with
         | H : startswith _ _ = true |- _ => apply startswith_split in H
         end.
  change (String.length "/") with 1 in *.
  assert (K1 : 1 <= count is_slash r1).
  { match goal with H : r1 = _ |- _ => rewrite H end. rewrite count_app.
    change (count is_slash "/") with 1. lia. }
  rewrite Hg, count_app, E1, count_app.
  change (count is_slash "github.com/") with 1. lia.
Qed.

(** X18. A reference that stops after the owner is refused: for an owner
    without a slash, [parse_github_url] raises its [ValueError] on
    [https://github.com/<owner>]. *)
Theorem parse_github_url_owner_only (o : string) :
  nonempty o = true -> slash_free o = true ->
  parse_github_url ("https://github.com/" +:+ o) = Raised "Invalid GitHub URL format".
Proof.
  intros Ho So. unfold parse_github_url, rstrip_char.
  assert (Rr : rstrip_by (Ascii.eqb "/") o = o).
  { apply rstrip_by_none. etransitivity; [|exact So]. apply all_ext_str.
    intros c. unfold notslash. rewrite Ascii.eqb_sym. reflexivity. }
  rewrite rstrip_by_app, Rr by (rewrite Rr; destruct o; discriminate).
  change ("https://github.com/" +:+ o) with ("https://" +:+ "github.com/" +:+ o).
  rewrite (search_https tree_pattern) by apply tree_pattern_other.
  rewrite (search_https pattern) by apply pattern_other.
  assert (L : forall i, count is_slash (drop i ("github.com/" +:+ o)) <= 1).
  { intros i. pose proof (count_drop_le is_slash i ("github.com/" +:+ o)) as L.
    rewrite count_app, (count_slash_free o So) in L.
    change (count is_slash "github.com/") with 1 in L. lia. }
  assert (search tree_pattern ("github.com/" +:+ o) = None) as ->.
  { apply search_None. intros i _.
    destruct (tree_pattern (drop i ("github.com/" +:+ o))) as [x|] eqn:E; [|reflexivity].
    apply tree_pattern_slashes in E. specialize (L i). lia. }
  assert (search pattern ("github.com/" +:+ o) = None) as ->.
  { apply search_None. intros i _.
    destruct (pattern (drop i ("github.com/" +:+ o))) as [x|] eqn:E; [|reflexivity].
    apply pattern_slashes in E. specialize (L i). lia. }
  reflexivity.
Qed.

End LocatorErrors.

(** A reference to another host. *)
Lemma parse_github_url_without_host_witness :
  Locator.parse_github_url "https://gitlab.com/octocat/leetcode"
  = Py.Raised "Invalid GitHub URL format".
Proof.
  apply (parse_github_url_without_host "https://gitlab.com/octocat/leetcode").
  reflexivity.
Defined.

(** A reference to a profile. *)
Lemma parse_github_url_owner_only_witness :
  Locator.parse_github_url ("https://github.com/" +:+ "octocat")
  = Py.Raised "Invalid GitHub URL format".
Proof. apply (parse_github_url_owner_only "octocat"); reflexivity. Defined.

(** ** The text [parse_gemini_response] and [parse_recommendation_response] decode *)

Section ReplyFacts.
Import Py Annotator Stated.
Local Arguments String.append !_ _ : simpl nomatch.

Lemma contains_char_cons a c s :
  contains (String a "") (String c s) = Ascii.eqb a c || contains (String a "") s.
Proof. cbn [contains startswith]. rewrite startswith_empty, andb_true_r. reflexivity. Qed.

(** [s.find(a)] for a character [a]: the text before the index has no [a]. *)
Lemma find_char k a s :
  match find_from k s (String a "") with
  | Some j => exists pre rest, s = pre +:+ String a rest /\ j = k + String.length pre
                               /\ contains (String a "") pre = false
  | None => contains (String a "") s = false
  end.
Proof.
  revert k. induction s as [|c s IH]; intros k; [reflexivity|].
  cbn [find_from startswith]. rewrite startswith_empty, andb_true_r.
  destruct (Ascii.eqb a c) eqn:E.
  - apply Ascii.eqb_eq in E. subst c. exists "", s. simpl. split; [reflexivity|].
    split; [lia|reflexivity].
  - specialize (IH (S k)). destruct (find_from (S k) s (String a "")) as [j|].
    + destruct IH as (pre & rest & -> & -> & Hc). exists (String c pre), rest.
      rewrite ?app_cons. split; [reflexivity|]. split; [simpl; lia|].
      rewrite contains_char_cons, E. exact Hc.
    + rewrite contains_char_cons, E. exact IH.
Qed.

(** [s.rfind(a)] for a character [a]: the text after the index has no [a]. *)
Lemma rfind_char k a s :
  match rfind_from k s (String a "") with
  | Some j => exists pre rest, s = pre +:+ String a rest /\ j = k + String.length pre
                               /\ contains (String a "") rest = false
  | None => contains (String a "") s = false
  end.
Proof.
  revert k. induction s as [|c s IH]; intros k; [reflexivity|].
  cbn [rfind_from]. specialize (IH (S k)).
  destruct (rfind_from (S k) s (String a "")) as [j|].
  - destruct IH as (pre & rest & -> & -> & Hc). exists (String c pre), rest.
    rewrite ?app_cons. split; [reflexivity|]. split; [simpl; lia|exact Hc].
  - cbn [startswith]. rewrite startswith_empty, andb_true_r.
    destruct (Ascii.eqb a c) eqn:E.
    + apply Ascii.eqb_eq in E. subst c. exists "", s. simpl. split; [reflexivity|].
      split; [lia|exact IH].
    + rewrite contains_char_cons, E. exact IH.
Qed.

Lemma app_align p1 x p2 y :
  p1 +:+ x = p2 +:+ y -> String.length p1 <= String.length p2 ->
  exists m, p2 = p1 +:+ m /\ x = m +:+ y.
Proof.
  revert p2. induction p1 as [|c p1 IH]; intros p2 H L.
  - exists p2. simpl in *. auto.
  - destruct p2 as [|d p2]; [simpl in L; lia|]. rewrite ?app_cons in H.
    assert (c = d) as <- by congruence.
    assert (H' : p1 +:+ x = p2 +:+ y) by congruence.
    destruct (IH p2 H' ltac:(simpl in L; lia)) as (m & -> & ->).
    exists m. rewrite ?app_cons. auto.
Qed.

Lemma contains_suffix sub a b : contains sub (a +:+ b) = false -> contains sub b = false.
Proof.
  intros H. destruct (contains sub b) eqn:E; [|reflexivity].
  destruct (contains_occurs _ _ E) as (pre & post & ->).
  rewrite <- app_assoc_str, contains_app in H. discriminate.
Qed.

(** [s[i:e]] for two indices within the text. *)
Lemma slice_within s i e :
  i <= String.length s -> e <= String.length s ->
  slice s (Z.of_nat i) (Z.of_nat e) = take (e - i) (drop i s).
Proof.
  intros Hi He. unfold slice, clamp.
  assert ((Z.of_nat i <? 0)%Z = false) as -> by (apply Z.ltb_ge; lia).
  assert ((Z.of_nat e <? 0)%Z = false) as -> by (apply Z.ltb_ge; lia).
  rewrite !Nat2Z.id, !Nat.min_l by lia. reflexivity.
Qed.

(** The first [a] and the last [b] of a text, for two characters: either
    the last [b] stands before the first [a], and the slice between the two
    indices is empty; or the slice opens with the first [a] and closes with
    the last [b]. *)
Lemma char_span a b s i j :
  a <> b ->
  find_from 0 s (String a "") = Some i -> rfind_from 0 s (String b "") = Some j ->
  (j < i /\ slice s (Z.of_nat i) (Z.of_nat j + 1) = ""
   /\ exists pre post, s = pre +:+ post /\ contains (String a "") pre = false
                       /\ contains (String b "") post = false)
  \/ (i < j
      /\ exists pre post,
           s = pre +:+ slice s (Z.of_nat i) (Z.of_nat j + 1) +:+ post
           /\ contains (String a "") pre = false /\ contains (String b "") post = false
           /\ startswith (slice s (Z.of_nat i) (Z.of_nat j + 1)) (String a "") = true
           /\ endswith (slice s (Z.of_nat i) (Z.of_nat j + 1)) (String b "") = true).
Proof.
  intros Hab Hi Hj.
  pose proof (find_char 0 a s) as F. pose proof (rfind_char 0 b s) as R.
  rewrite Hi in F. rewrite Hj in R.
  destruct F as (p1 & r1 & E1 & -> & C1). destruct R as (p2 & r2 & E2 & -> & C2).
  simpl (0 + _) in *.
  assert (L1 : String.length s = String.length p1 + S (String.length r1)).
  { rewrite E1, length_app_str. reflexivity. }
  assert (L2 : String.length s = String.length p2 + S (String.length r2)).
  { rewrite E2, length_app_str. reflexivity. }
  replace (Z.of_nat (String.length p2) + 1)%Z with (Z.of_nat (S (String.length p2)))
    by lia.
  rewrite slice_within by lia.
  destruct (Nat.le_gt_cases (String.length p1) (String.length p2)) as [L|L].
  - right. assert (E : p1 +:+ String a r1 = p2 +:+ String b r2) by congruence.
    destruct (app_align _ _ _ _ E L) as (m & -> & Em).
    destruct m as [|c m]; [simpl in Em; congruence|]. rewrite ?app_cons in Em.
    assert (c = a) as -> by congruence.
    assert (r1 = m +:+ String b r2) as -> by congruence.
    split; [rewrite length_app_str; simpl; lia|].
    assert (T : take (S (String.length (p1 +:+ String a m)) - String.length p1)
                  (drop (String.length p1) s)
                = String a (m +:+ String b "")).
    { rewrite E1, drop_app_length, length_app_str. simpl String.length.
      replace (S (String.length p1 + S (String.length m)) - String.length p1)
        with (String.length (String a (m +:+ String b "")))
        by (simpl; rewrite length_app_str; simpl; lia).
      replace (String a (m +:+ String b r2)) with (String a (m +:+ String b "") +:+ r2)
        by (rewrite ?app_cons, app_assoc_str; reflexivity).
      apply take_app_length. }
    rewrite T. exists p1, r2. split; [|split; [exact C1|split; [exact C2|split]]].
    + rewrite E1, ?app_cons, app_assoc_str. reflexivity.
    + cbn [startswith]. rewrite Ascii.eqb_refl, startswith_empty. reflexivity.
    + unfold endswith. simpl String.length. rewrite length_app_str. simpl String.length.
      replace (S (String.length m + 1) - 1) with (String.length (String a m))
        by (simpl; lia).
      replace (String a (m +:+ String b "")) with (String a m +:+ String b "")
        by reflexivity.
      rewrite drop_app_length, String.eqb_refl. reflexivity.
  - left. split; [exact L|].
    split; [replace (S (String.length p2) - String.length p1) with 0 by lia; apply take_0|].
    assert (E : p2 +:+ String b r2 = p1 +:+ String a r1) by congruence.
    destruct (app_align _ _ _ _ E ltac:(lia)) as (m & -> & Em).
    destruct m as [|c m]; [rewrite length_app_str in L; simpl in L; lia|].
    rewrite ?app_cons in Em. assert (r2 = m +:+ String a r1) as -> by congruence.
    exists (p2 +:+ String c m), (String a r1). split; [exact E1|]. split; [exact C1|].
    apply (contains_suffix _ m), C2.
Qed.

Lemma contains_found a pre rest : contains (String a "") (pre +:+ String a rest) = true.
Proof. apply (contains_app pre (String a "") rest). Qed.

(** X19. The text [parse_gemini_response] hands to the decoder, after the
    code fences are removed and the reply stripped.  There is none exactly
    when the cleaned reply has no opening or no closing bracket.  When there
    is one, either every closing bracket of the cleaned reply stands before
    every opening one and the text is empty, or the text is the part of the
    cleaned reply that opens with its first opening bracket and closes with
    its last closing bracket. *)
Theorem json_str_span (response : string) :
  let cleaned := strip (replace (replace response "```json" "") "```" "") in
  match json_str response with
  | None => contains "[" cleaned = false \/ contains "]" cleaned = false
  | Some text =>
      contains "[" cleaned = true /\ contains "]" cleaned = true
      /\ ((text = ""
           /\ exists pre post,
                cleaned = pre +:+ post
                /\ contains "[" pre = false /\ contains "]" post = false)
          \/ exists pre post,
               cleaned = pre +:+ text +:+ post
               /\ contains "[" pre = false /\ contains "]" post = false
               /\ startswith text "[" = true /\ endswith text "]" = true)
  end.
Proof.
  intros cleaned. unfold json_str. fold cleaned. cbv zeta. unfold find, rfind.
  pose proof (find_char 0 "[" cleaned) as F. pose proof (rfind_char 0 "]" cleaned) as R.
  destruct (find_from 0 cleaned "[") as [i|] eqn:Hi; [|left; exact F].
  destruct (rfind_from 0 cleaned "]") as [j|] eqn:Hj.
  - assert ((Z.of_nat i =? -1)%Z = false) as -> by (apply Z.eqb_neq; lia).
    assert ((Z.of_nat j + 1 =? 0)%Z = false) as -> by (apply Z.eqb_neq; lia).
    cbn [orb].
    destruct F as (p1 & r1 & E1 & _). destruct R as (p2 & r2 & E2 & _).
    split; [rewrite E1 at 1; apply contains_found|].
    split; [rewrite E2 at 1; apply contains_found|].
    destruct (char_span "[" "]" cleaned i j ltac:(discriminate) Hi Hj)
      as [(_ & E & H)|(_ & H)]; [left; split; [exact E|exact H]|right; exact H].
  - rewrite orb_true_r. right. exact R.
Qed.

(** X20. [parse_recommendation_response] decodes a text only when the
    cleaned reply has an opening brace before its last closing brace, and the
    text then opens with the first opening brace and closes with the last
    closing brace (it is never empty); otherwise every closing brace of the
    cleaned reply stands before every opening one, and the function raises
    its [ValueError]. *)
Theorem parse_recommendation_response_span
    (json_loads : string -> option json) (response : string) :
  let cleaned := strip (replace (replace response "```json" "") "```" "") in
  match Recommender.json_str response with
  | Some text =>
      exists pre post,
        cleaned = pre +:+ text +:+ post
        /\ contains "{" pre = false /\ contains "}" post = false
        /\ startswith text "{" = true /\ endswith text "}" = true
  | None =>
      Recommender.parse_recommendation_response json_loads response
      = Recommender.NoJsonFound
      /\ exists pre post,
           cleaned = pre +:+ post
           /\ contains "{" pre = false /\ contains "}" post = false
  end.
Proof.
  intros cleaned. unfold Recommender.parse_recommendation_response, Recommender.json_str.
  fold cleaned. cbv zeta. unfold find, rfind.
  pose proof (find_char 0 "{" cleaned) as F. pose proof (rfind_char 0 "}" cleaned) as R.
  destruct (find_from 0 cleaned "{") as [i|] eqn:Hi.
  2:{ cbn [Z.eqb negb andb]. split; [reflexivity|]. exists cleaned, "".
      rewrite app_empty_r. auto. }
  assert ((Z.of_nat i =? -1)%Z = false) as -> by (apply Z.eqb_neq; lia). cbn [negb andb].
  destruct (rfind_from 0 cleaned "}") as [j|] eqn:Hj.
  - destruct (char_span "{" "}" cleaned i j ltac:(discriminate) Hi Hj)
      as [(L & _ & H)|(L & H)].
    + assert ((Z.of_nat i <? Z.of_nat j + 1)%Z = false) as -> by (apply Z.ltb_ge; lia).
      split; [reflexivity|exact H].
    + assert ((Z.of_nat i <? Z.of_nat j + 1)%Z = true) as -> by (apply Z.ltb_lt; lia).
      exact H.
  - assert ((Z.of_nat i <? -1 + 1)%Z = false) as -> by (apply Z.ltb_ge; lia).
    split; [reflexivity|]. exists "", cleaned. auto.
Qed.

End ReplyFacts.

(** ** The extension tables *)

Section ExtensionFacts.
Import Py Classifier Stated.
Local Arguments String.append !_ _ : simpl nomatch.

Lemma endswith_occurs s suf : endswith s suf = true <-> exists pre, s = pre +:+ suf.
Proof.
  unfold endswith. split.
  - intros H. apply andb_prop in H as [_ H]. apply String.eqb_eq in H.
    exists (take (String.length s - String.length suf) s).
    set (n := String.length s - String.length suf) in *.
    rewrite <- H. symmetry. apply take_drop_str.
  - intros (pre & ->). rewrite length_app_str.
    replace (String.length pre + String.length suf - String.length suf)
      with (String.length pre) by lia.
    rewrite drop_app_length, String.eqb_refl, andb_true_r. apply Nat.leb_le. lia.
Qed.

(** Two suffixes of one text: one of them is a suffix of the other. *)
Lemma endswith_app_cases stem suf suf' :
  endswith (stem +:+ suf) suf' = true ->
  endswith suf suf' = true \/ endswith suf' suf = true.
Proof.
  intros H. apply endswith_occurs in H as (pre & E).
  destruct (Nat.le_gt_cases (String.length stem) (String.length pre)) as [L|L].
  - destruct (app_align _ _ _ _ E L) as (m & _ & ->). left.
    apply endswith_occurs. eauto.
  - symmetry in E. destruct (app_align _ _ _ _ E ltac:(lia)) as (m & _ & ->). right.
    apply endswith_occurs. eauto.
Qed.

Lemma endswith_own stem suf : endswith (stem +:+ suf) suf = true.
Proof. apply endswith_occurs. eauto. Qed.

Ltac by_suffix :=
  repeat match goal with
         | |- context [endswith (?stem +:+ ?e) ?e'] =>
             first
               [ rewrite (endswith_own stem e)
               | let E := fresh "E" in
                 destruct (endswith (stem +:+ e) e') eqn:E;
                 [ apply endswith_app_cases in E; destruct E as [E|E];
                   vm_compute in E; discriminate E
                 | ] ]
         end.

(** X21. A name that ends with an extension of the table is a code file
    and has the language the table gives that extension, whatever stands
    before the extension: no extension of the table is the end of another, so
    the order of the table does not matter. *)
Theorem get_language_by_extension (stem ext lang : string) :
  In (ext, lang) ext_map ->
  get_language (stem +:+ ext) = lang /\ is_code_file (stem +:+ ext) = true.
Proof.
  intros H. unfold get_language, is_code_file.
  assert (Hext : In ext extensions).
  { simpl in H. simpl.
    repeat (destruct H as [H|H]; [apply pair_equal_spec in H as [<- <-]; tauto|]).
    contradiction. }
  split.
  - unfold ext_map in *. simpl in H.
    repeat (destruct H as [H|H];
            [apply pair_equal_spec in H as [<- <-];
             cbn [first_language]; by_suffix; reflexivity|]).
    contradiction.
  - apply existsb_exists. exists ext. split; [exact Hext|apply endswith_own].
Qed.

End ExtensionFacts.

(** The language of a C++ file in a directory. *)
Lemma get_language_by_extension_witness :
  Classifier.get_language ("src/two-sum" +:+ ".cpp") = "C++"
  /\ Classifier.is_code_file ("src/two-sum" +:+ ".cpp") = true.
Proof.
  apply (get_language_by_extension "src/two-sum" ".cpp" "C++"). simpl. tauto.
Defined.

(** ** A crawl without downloads *)

Section NoDownloads.
Import Py Crawler Orchestrator Stated.

Lemma scan_repository_no_content http_get contents :
  (forall download_url, get_file_content http_get download_url = "") ->
  scan_repository http_get contents = [].
Proof.
  intros H.
  assert (F : Forall (fun _ => False) (scan_repository http_get contents)).
  { apply Forall_flat_map, List.Forall_forall. intros it _. apply scan_item_Forall.
    intros name path download_url _ Hne. rewrite H in Hne. discriminate. }
  destruct (scan_repository http_get contents) as [|f l]; [reflexivity|].
  apply Forall_cons_1 in F as [[] _].
Qed.

(** X22. When no download gives any text (every one fails, or answers
    with another status than 200, or with an empty body), a run that passes
    the connection test and parses its reference ends with no solution found
    and leaves the table, whatever the listings hold. *)
Theorem process_repository_no_downloads
    (w : world) (github_url : string) (owner : option string) (table : list Upserter.row)
    (reference : string * string * string) :
  test_connection w = true ->
  Locator.parse_github_url github_url = Returned reference ->
  (forall download_url, get_file_content (http_get w) download_url = "") ->
  process_repository w github_url owner table = (NoSolutionsFound, table).
Proof.
  intros Ht Hp Hd. unfold process_repository. rewrite Ht, Hp.
  destruct reference as [[o r] p]. rewrite (scan_repository_no_content _ _ Hd).
  reflexivity.
Qed.

End NoDownloads.

(** The scenario's tree behind a host that serves no file. *)
Lemma process_repository_no_downloads_witness :
  Orchestrator.process_repository Samples.world_without_downloads
    Samples.repository_url (Some "u1") Samples.stored_once
  = (Orchestrator.NoSolutionsFound, Samples.stored_once).
Proof.
  apply (process_repository_no_downloads Samples.world_without_downloads
           Samples.repository_url (Some "u1") Samples.stored_once
           ("octocat", "leetcode", "")).
  - reflexivity.
  - reflexivity.
  - intros download_url. reflexivity.
Defined.
